(** * pi-world-radio: the thumbstick controller and the WebSocket broadcaster

    A shallow embedding of [src/app/thumbstick-controller.js] (class
    [ThumbstickController]) and of the server: the subscriber fan-out
    ([wsClients], [broadcastToClients], the WebSocket endpoint) and the
    self-contained parts of the HTTP handlers ([cleanseString], the
    validation of [/addfavorite], the channel id of a page URL, the display
    relay, [resolveStreamUrl]).

    Conventions of the embedding:
    - a JavaScript Number holding a fraction (axis reading, deadzone,
      threshold) is a rational [Q] and its arithmetic is exact; equality of
      such numbers is [Qeq] ([==]).  Rounding, NaN, the infinities and the
      sign of zero have no counterpart here, and a division by zero (the
      deadzone 1 in [applyDeadzone]) is outside every statement;
    - a Number holding an identifier or a time in milliseconds ([Date.now()],
      the debounce window, the poll interval, a channel or pin) is a [Z];
    - [null] / [undefined] is [None];
    - [emit] appends to the list of events a call returns; [console.log] is
      left out of the controller and kept in the broadcaster, where a claim
      is about it;
    - [poll] is an [async] function with a single [await]: it is cut at the
      [await] into [poll_begin] and [poll_resume], and the event loop that
      runs the two halves, the timers and the button interrupts is the
      transition function [step] of [Module EventLoop]. *)

From Stdlib Require Import ZArith QArith Qabs Bool List String Ascii Lia Lqa.
Import ListNotations.

Local Open Scope Q_scope.

(** ** JavaScript helpers *)

Module JS.

(** How a function body completes: it returns, or a [throw] leaves it. *)
Inductive completion (A E : Type) : Type :=
| Normal (a : A)
| Throw (e : E).
Arguments Normal {A E} a.
Arguments Throw {A E} e.

(** A thrown [Error]. *)
Inductive Exception : Type := Error (message : string).

(** [v || d] for a field that is absent or an integer Number: the falsy
    values are [undefined] and [0]. *)
Definition or_Z (v : option Z) (d : Z) : Z :=
  match v with
  | Some n => if (n =? 0)%Z then d else n
  | None => d
  end.

(** [v || d] for a field that is absent or a fractional Number. *)
Definition or_Q (v : option Q) (d : Q) : Q :=
  match v with
  | Some q => if Qeq_bool q 0 then d else q
  | None => d
  end.

(** [a < b] and [a > b] on Numbers. *)
Definition lt (a b : Q) : bool := negb (Qle_bool b a).
Definition gt (a b : Q) : bool := lt b a.

End JS.

(** ** The controller: data *)

Module Thumbstick.

(** The strings ['up'], ['down'], ['left'], ['right']; [null] is [None]. *)
Inductive Direction : Type := Up | Down | Left | Right.

Definition Direction_eqb (a b : Direction) : bool :=
  match a, b with
  | Up, Up | Down, Down | Left, Left | Right, Right => true
  | _, _ => false
  end.

(** [a !== b] on values that are [null] or a direction string. *)
Definition strict_neq (a b : option Direction) : bool :=
  match a, b with
  | None, None => false
  | Some x, Some y => negb (Direction_eqb x y)
  | _, _ => true
  end.

Inductive ZoomDirection : Type := zoom_in | zoom_out.

(** What [emit] is called with: the event name and its payload. *)
Inductive Event : Type :=
| leftClick (zoomMode : bool)
| rightClick
| zoom (direction : ZoomDirection)
| pan (direction : Direction)
| navigate (direction : Direction).

(** The [options] argument of the constructor: every field is absent or a
    Number. *)
Record RawOptions : Type := mkRawOptions {
  o_leftXChannel : option Z;
  o_leftYChannel : option Z;
  o_rightXChannel : option Z;
  o_rightYChannel : option Z;
  o_leftButtonPin : option Z;
  o_rightButtonPin : option Z;
  o_deadzone : option Q;
  o_pollInterval : option Z;
  o_threshold : option Q
}.

(** [{}], the default value of the argument. *)
Definition no_options : RawOptions :=
  mkRawOptions None None None None None None None None None.

(** [this.options]. *)
Record Options : Type := mkOptions {
  leftXChannel : Z;
  leftYChannel : Z;
  rightXChannel : Z;
  rightYChannel : Z;
  leftButtonPin : Z;
  rightButtonPin : Z;
  deadzone : Q;
  pollInterval : Z;
  threshold : Q
}.

(** An ADC channel opened by [mcpSpiAdc.open]: the handle is the channel
    number it was opened on. *)
Definition Channel : Type := Z.

(** [this.channels], when [init] got as far as assigning it. *)
Record Channels : Type := mkChannels {
  leftX : Channel;
  leftY : Channel;
  rightX : Channel;
  rightY : Channel
}.

(** A [Gpio] object: the pin it was exported on. *)
Definition Gpio : Type := Z.

Record LeftStick : Type := mkLeft {
  left_x : Q;
  left_y : Q;
  left_button : bool;
  zoomMode : bool
}.

Record RightStick : Type := mkRight {
  right_x : Q;
  right_y : Q;
  right_button : bool
}.

Record LastDirection : Type := mkLast {
  last_left : option Direction;
  last_right : option Direction
}.

(** [this.state]. *)
Record State : Type := mkState {
  left : LeftStick;
  right : RightStick;
  lastDirection : LastDirection
}.

(** A timer handle returned by [setTimeout]; every handle is truthy. *)
Definition TimerId : Type := nat.

(** The fields of a [ThumbstickController] ([adc] is never used). *)
Record Controller : Type := mkController {
  options : Options;
  channels : option Channels;
  leftButton : option Gpio;
  rightButton : option Gpio;
  pollTimer : option TimerId;
  isRunning : bool;
  state : State;
  lastLeftClick : Z;
  lastRightClick : Z;
  clickDebounce : Z
}.

(** *** Field updates *)

Definition set_isRunning (b : bool) (c : Controller) : Controller :=
  mkController (options c) (channels c) (leftButton c) (rightButton c)
    (pollTimer c) b (state c) (lastLeftClick c) (lastRightClick c)
    (clickDebounce c).

Definition set_pollTimer (t : option TimerId) (c : Controller) : Controller :=
  mkController (options c) (channels c) (leftButton c) (rightButton c)
    t (isRunning c) (state c) (lastLeftClick c) (lastRightClick c)
    (clickDebounce c).

Definition set_state (s : State) (c : Controller) : Controller :=
  mkController (options c) (channels c) (leftButton c) (rightButton c)
    (pollTimer c) (isRunning c) s (lastLeftClick c) (lastRightClick c)
    (clickDebounce c).

Definition set_lastLeftClick (t : Z) (c : Controller) : Controller :=
  mkController (options c) (channels c) (leftButton c) (rightButton c)
    (pollTimer c) (isRunning c) (state c) t (lastRightClick c)
    (clickDebounce c).

Definition set_lastRightClick (t : Z) (c : Controller) : Controller :=
  mkController (options c) (channels c) (leftButton c) (rightButton c)
    (pollTimer c) (isRunning c) (state c) (lastLeftClick c) t
    (clickDebounce c).

Definition set_hardware (ch : option Channels) (lb rb : option Gpio)
    (c : Controller) : Controller :=
  mkController (options c) ch lb rb
    (pollTimer c) (isRunning c) (state c) (lastLeftClick c)
    (lastRightClick c) (clickDebounce c).

Definition set_left_axes (x y : Q) (s : State) : State :=
  mkState (mkLeft x y (left_button (left s)) (zoomMode (left s)))
    (right s) (lastDirection s).

Definition set_right_axes (x y : Q) (s : State) : State :=
  mkState (left s) (mkRight x y (right_button (right s))) (lastDirection s).

Definition set_left_button (b : bool) (s : State) : State :=
  mkState (mkLeft (left_x (left s)) (left_y (left s)) b (zoomMode (left s)))
    (right s) (lastDirection s).

Definition set_right_button (b : bool) (s : State) : State :=
  mkState (left s) (mkRight (right_x (right s)) (right_y (right s)) b)
    (lastDirection s).

Definition set_zoomMode (z : bool) (s : State) : State :=
  mkState
    (mkLeft (left_x (left s)) (left_y (left s)) (left_button (left s)) z)
    (right s) (lastDirection s).

Definition set_last_left (d : option Direction) (s : State) : State :=
  mkState (left s) (right s) (mkLast d (last_right (lastDirection s))).

Definition set_last_right (d : option Direction) (s : State) : State :=
  mkState (left s) (right s) (mkLast (last_left (lastDirection s)) d).

(** ** The controller: operations *)

(** [this.options = { leftXChannel: options.leftXChannel || 0, ... }]. *)
Definition merge_options (o : RawOptions) : Options :=
  {| leftXChannel := JS.or_Z (o_leftXChannel o) 0;
     leftYChannel := JS.or_Z (o_leftYChannel o) 1;
     rightXChannel := JS.or_Z (o_rightXChannel o) 2;
     rightYChannel := JS.or_Z (o_rightYChannel o) 3;
     leftButtonPin := JS.or_Z (o_leftButtonPin o) 17;
     rightButtonPin := JS.or_Z (o_rightButtonPin o) 27;
     deadzone := JS.or_Q (o_deadzone o) (15 # 100);
     pollInterval := JS.or_Z (o_pollInterval o) 50;
     threshold := JS.or_Q (o_threshold o) (3 # 10) |}.

Definition initial_state : State :=
  {| left := mkLeft 0 0 false false;
     right := mkRight 0 0 false;
     lastDirection := mkLast None None |}.

(** The assignments of the constructor body. *)
Definition new_controller (o : RawOptions) : Controller :=
  {| options := merge_options o;
     channels := None;
     leftButton := None;
     rightButton := None;
     pollTimer := None;
     isRunning := false;
     state := initial_state;
     lastLeftClick := 0%Z;
     lastRightClick := 0%Z;
     clickDebounce := 200%Z |}.

(** [constructor(options = {})]: the body has no [throw] and runs to its
    end. *)
Definition constructor (o : RawOptions)
    : JS.completion Controller JS.Exception :=
  JS.Normal (new_controller o).

(** What the environment does to [init], by the statement that throws:
    none, the Pi modules load, the pins export and the watchers are
    installed; a [require] or a channel [open], before anything is
    assigned; the constructor of the left [Gpio], the channels being
    assigned; the constructor of the right [Gpio], the channels and
    [leftButton] being assigned; a [watch], the channels and both buttons
    being assigned.  In the last two cases a button object exists that is
    not watched: the event loop below still takes interrupts for it, which
    only adds runs. *)
Inductive InitOutcome : Type :=
| ModulesLoaded
| RequireThrows
| LeftGpioThrows
| RightGpioThrows
| WatchThrows.

(** [init()], with its return value. *)
Definition init (env : InitOutcome) (c : Controller) : Controller * bool :=
  let o := options c in
  let chans :=
    mkChannels (leftXChannel o) (leftYChannel o)
               (rightXChannel o) (rightYChannel o) in
  match env with
  | ModulesLoaded =>
      (set_hardware (Some chans)
         (Some (leftButtonPin o)) (Some (rightButtonPin o)) c, true)
  | RequireThrows => (c, false)
  | LeftGpioThrows => (set_hardware (Some chans) None None c, false)
  | RightGpioThrows =>
      (set_hardware (Some chans) (Some (leftButtonPin o)) None c, false)
  | WatchThrows =>
      (set_hardware (Some chans)
         (Some (leftButtonPin o)) (Some (rightButtonPin o)) c, false)
  end.

(** [handleLeftButton(pressed)], with [now = Date.now()]. *)
Definition handleLeftButton (now : Z) (pressed : bool) (c : Controller)
    : Controller * list Event :=
  if pressed && (now - lastLeftClick c >? clickDebounce c)%Z then
    let z := negb (zoomMode (left (state c))) in
    let c1 := set_lastLeftClick now c in
    let c2 := set_state (set_zoomMode z (state c1)) c1 in
    (set_state (set_left_button pressed (state c2)) c2, [leftClick z])
  else
    (set_state (set_left_button pressed (state c)) c, []).

(** [handleRightButton(pressed)], with [now = Date.now()]. *)
Definition handleRightButton (now : Z) (pressed : bool) (c : Controller)
    : Controller * list Event :=
  if pressed && (now - lastRightClick c >? clickDebounce c)%Z then
    let c1 := set_lastRightClick now c in
    (set_state (set_right_button pressed (state c1)) c1, [rightClick])
  else
    (set_state (set_right_button pressed (state c)) c, []).

(** What the hardware answers to one [channel.read]. *)
Inductive ReadResult : Type :=
| ReadError
| Reading (value : Q).

(** [readChannel(channel)]: the promise settles to [Some v] (resolved) or
    [None] (rejected); [hw] is what the hardware would answer. *)
Definition readChannel (channel : option Channel) (hw : ReadResult)
    : option Q :=
  match channel with
  | None => Some (1 # 2)
  | Some _ =>
      match hw with
      | ReadError => None
      | Reading v => Some v
      end
  end.

(** [applyDeadzone(value)]. *)
Definition applyDeadzone (o : Options) (value : Q) : Q :=
  let centered := (value - (1 # 2)) * 2 in
  if JS.lt (Qabs centered) (deadzone o) then 0
  else
    let sign := if JS.gt centered 0 then 1 else -(1) in
    let scaled := (Qabs centered - deadzone o) / (1 - deadzone o) in
    sign * scaled.

(** [getDirection(x, y)]. *)
Definition getDirection (o : Options) (x y : Q) : option Direction :=
  let threshold := threshold o in
  if JS.lt (Qabs x) threshold && JS.lt (Qabs y) threshold then None
  else if JS.gt (Qabs x) (Qabs y) then
    Some (if JS.gt x 0 then Right else Left)
  else
    Some (if JS.gt y 0 then Down else Up).


(** What the hardware answers to the four reads of one tick. *)
Record Reads : Type := mkReads {
  hw_leftX : ReadResult;
  hw_leftY : ReadResult;
  hw_rightX : ReadResult;
  hw_rightY : ReadResult
}.

(** [await Promise.all([this.readChannel(this.channels?.leftX), ...])]:
    the four values, or [None] when one of the promises is rejected. *)
Definition read_all (c : Controller) (hw : Reads) : option (Q * Q * Q * Q) :=
  match readChannel (option_map leftX (channels c)) (hw_leftX hw),
        readChannel (option_map leftY (channels c)) (hw_leftY hw),
        readChannel (option_map rightX (channels c)) (hw_rightX hw),
        readChannel (option_map rightY (channels c)) (hw_rightY hw) with
  | Some lx, Some ly, Some rx, Some ry => Some (lx, ly, rx, ry)
  | _, _, _, _ => None
  end.

(** [poll], lines 207-224: direction change of the left stick. *)
Definition detect_left (leftDir : option Direction) (c : Controller)
    : Controller * list Event :=
  if strict_neq leftDir (last_left (lastDirection (state c))) then
    let c1 := set_state (set_last_left leftDir (state c)) c in
    match leftDir with
    | Some d =>
        if zoomMode (left (state c1)) then
          if Direction_eqb d Up then (c1, [zoom zoom_in])
          else if Direction_eqb d Down then (c1, [zoom zoom_out])
          else (c1, [])
        else (c1, [pan d])
    | None => (c1, [])
    end
  else (c, []).

(** [poll], lines 226-233: direction change of the right stick. *)
Definition detect_right (rightDir : option Direction) (c : Controller)
    : Controller * list Event :=
  if strict_neq rightDir (last_right (lastDirection (state c))) then
    let c1 := set_state (set_last_right rightDir (state c)) c in
    match rightDir with
    | Some d => (c1, [navigate d])
    | None => (c1, [])
    end
  else (c, []).

(** [poll], the [try] block from the point where the reads have settled;
    a rejected read lands in [catch], which only logs. *)
Definition poll_try (hw : Reads) (c : Controller) : Controller * list Event :=
  match read_all c hw with
  | None => (c, [])
  | Some (leftXRaw, leftYRaw, rightXRaw, rightYRaw) =>
      let lX := applyDeadzone (options c) leftXRaw in
      let lY := applyDeadzone (options c) leftYRaw in
      let rX := applyDeadzone (options c) rightXRaw in
      let rY := applyDeadzone (options c) rightYRaw in
      let c1 :=
        set_state (set_right_axes rX rY (set_left_axes lX lY (state c))) c in
      let leftDir := getDirection (options c1) lX lY in
      let (c2, evl) := detect_left leftDir c1 in
      let rightDir := getDirection (options c2) rX rY in
      let (c3, evr) := detect_right rightDir c2 in
      (c3, evl ++ evr)
  end.

End Thumbstick.

(** ** The event loop around one controller *)

Module EventLoop.

Import Thumbstick.

(** The controller, the timeouts that are pending (handle and delay), the
    next fresh handle, and the number of [poll] calls suspended at their
    [await].  [this.channels] is assigned by [init] only, so a suspended
    [poll] needs no copy of the channels it read. *)
Record World : Type := mkWorld {
  ctrl : Controller;
  timers : list (TimerId * Z);
  next_timer : TimerId;
  in_flight : nat
}.

Definition boot (c : Controller) : World := mkWorld c [] 1%nat 0%nat.

Definition is_timer (t : TimerId) (p : TimerId * Z) : bool :=
  Nat.eqb (fst p) t.

(** [clearTimeout(t)]. *)
Definition clearTimeout (t : TimerId) (ts : list (TimerId * Z))
    : list (TimerId * Z) :=
  filter (fun p => negb (is_timer t p)) ts.

(** [poll], up to the [await]: the guard, then the four reads are issued. *)
Definition poll_begin (w : World) : World :=
  if negb (isRunning (ctrl w)) then w
  else mkWorld (ctrl w) (timers w) (next_timer w) (S (in_flight w)).

(** [poll], from the [await] on: the [try] block, then
    [this.pollTimer = setTimeout(() => this.poll(), pollInterval)]. *)
Definition poll_resume (hw : Reads) (w : World) : World * list Event :=
  let (c, evs) := poll_try hw (ctrl w) in
  let t := next_timer w in
  (mkWorld (set_pollTimer (Some t) c)
     (timers w ++ [(t, pollInterval (options c))])
     (S t) (pred (in_flight w)),
   evs).

(** [start()]. *)
Definition start (w : World) : World :=
  if isRunning (ctrl w) then w
  else
    poll_begin
      (mkWorld (set_isRunning true (ctrl w)) (timers w) (next_timer w)
         (in_flight w)).

(** [stop()]. *)
Definition stop (w : World) : World :=
  let c := set_isRunning false (ctrl w) in
  match pollTimer c with
  | Some t =>
      mkWorld (set_pollTimer None c) (clearTimeout t (timers w))
        (next_timer w) (in_flight w)
  | None => mkWorld c (timers w) (next_timer w) (in_flight w)
  end.

(** What can happen to the controller: a call of [start] or [stop], a
    pending timeout firing, the reads of a suspended [poll] settling, and a
    GPIO interrupt on a button pin, which calls the watcher with [err] and
    [value] (the level read) at clock [now]. *)
Inductive Input : Type :=
| CallStart
| CallStop
| TimerFires (t : TimerId)
| ReadsSettle (hw : Reads)
| LeftInterrupt (err : bool) (now : Z) (value : Z)
| RightInterrupt (err : bool) (now : Z) (value : Z).

Definition with_ctrl (w : World) (r : Controller * list Event)
    : World * list Event :=
  (mkWorld (fst r) (timers w) (next_timer w) (in_flight w), snd r).

(** One turn of the event loop.  An input that cannot occur in the current
    world (a timeout that is not pending, reads settling with no [poll]
    suspended, an interrupt on a pin that is not watched) leaves it as it
    is. *)
Definition step (w : World) (i : Input) : World * list Event :=
  match i with
  | CallStart => (start w, [])
  | CallStop => (stop w, [])
  | TimerFires t =>
      if existsb (is_timer t) (timers w) then
        (poll_begin
           (mkWorld (ctrl w) (clearTimeout t (timers w)) (next_timer w)
              (in_flight w)), [])
      else (w, [])
  | ReadsSettle hw =>
      match in_flight w with
      | O => (w, [])
      | S _ => poll_resume hw w
      end
  | LeftInterrupt err now value =>
      match leftButton (ctrl w) with
      | Some _ =>
          if err then (w, [])
          else with_ctrl w (handleLeftButton now (value =? 0)%Z (ctrl w))
      | None => (w, [])
      end
  | RightInterrupt err now value =>
      match rightButton (ctrl w) with
      | Some _ =>
          if err then (w, [])
          else with_ctrl w (handleRightButton now (value =? 0)%Z (ctrl w))
      | None => (w, [])
      end
  end.

(** A run: the inputs in the order the event loop takes them, and every
    event emitted on the way. *)
Fixpoint run (w : World) (tr : list Input) : World * list Event :=
  match tr with
  | [] => (w, [])
  | i :: tr' =>
      let (w1, e1) := step w i in
      let (w2, e2) := run w1 tr' in
      (w2, e1 ++ e2)
  end.

(** The events of the poll loop, as opposed to the two click events. *)
Definition is_stick_event (e : Event) : bool :=
  match e with
  | zoom _ | pan _ | navigate _ => true
  | leftClick _ | rightClick => false
  end.

Definition is_start (i : Input) : bool :=
  match i with
  | CallStart => true
  | _ => false
  end.

End EventLoop.

(** ** The server: the registry of WebSocket clients and the broadcast *)

Module Server.

Import Thumbstick.

Local Open Scope string_scope.

(** The payload values the controller's events carry. *)
Inductive JsonValue : Type :=
| JBool (b : bool)
| JString (s : string).

(** The object handed to [broadcastToClients]: [{ type: ..., ...data }],
    the keys in insertion order. *)
Record Message : Type := mkMessage {
  type : string;
  data : list (string * JsonValue)
}.

Definition direction_string (d : Direction) : string :=
  match d with
  | Up => "up"
  | Down => "down"
  | Left => "left"
  | Right => "right"
  end.

(** The five handlers registered with [thumbstickController.on]: each
    builds [{ type: <event name>, ...data }]. *)
Definition to_message (e : Event) : Message :=
  match e with
  | leftClick z => mkMessage "leftClick" [("zoomMode", JBool z)]
  | rightClick => mkMessage "rightClick" []
  | zoom zoom_in => mkMessage "zoom" [("direction", JString "in")]
  | zoom zoom_out => mkMessage "zoom" [("direction", JString "out")]
  | pan d => mkMessage "pan" [("direction", JString (direction_string d))]
  | navigate d =>
      mkMessage "navigate" [("direction", JString (direction_string d))]
  end.

(** The double quote character. *)
Definition dquote : string := String (ascii_of_nat 34) EmptyString.

Definition quoted (s : string) : string := dquote ++ s ++ dquote.

Definition stringify_value (v : JsonValue) : string :=
  match v with
  | JBool true => "true"
  | JBool false => "false"
  | JString s => quoted s
  end.

Definition stringify_field (f : string * JsonValue) : string :=
  quoted (fst f) ++ ":" ++ stringify_value (snd f).

(** [JSON.stringify] on such an object (none of its strings needs an
    escape). *)
Definition stringify (m : Message) : string :=
  "{" ++ String.concat ","
           (map stringify_field (("type", JString (type m)) :: data m))
      ++ "}".

(** A socket object, by identity. *)
Definition Socket : Type := nat.

(** What the sockets do during one broadcast: the [readyState] of each and
    whether its [send] throws. *)
Record Sockets : Type := mkSockets {
  readyState : Socket -> Z;
  send_throws : Socket -> bool
}.

(** [wsClients], a [Set]: its members in insertion order, each once. *)
Definition Registry : Type := list Socket.

(** [wsClients.add(socket)]. *)
Definition add (s : Socket) (r : Registry) : Registry :=
  if existsb (Nat.eqb s) r then r else (r ++ [s])%list.

(** [wsClients.delete(socket)]. *)
Definition delete (s : Socket) (r : Registry) : Registry :=
  filter (fun x => negb (Nat.eqb s x)) r.

(** What a broadcast does to the outside, in order. *)
Inductive Effect : Type :=
| Stringified (m : Message)
| Sent (client : Socket) (payload : string)
| Logged (client : Socket).

(** The body of the [forEach] callback: [try { if (client.readyState === 1)
    client.send(data) } catch (e) { console.log(...) }]. *)
Definition deliver (env : Sockets) (payload : string) (client : Socket)
    : list Effect :=
  if (readyState env client =? 1)%Z then
    if send_throws env client then [Logged client]
    else [Sent client payload]
  else [].

(** [broadcastToClients(message)]: the registry afterwards and the
    effects. *)
Definition broadcastToClients (env : Sockets) (wsClients : Registry)
    (message : Message) : Registry * list Effect :=
  let payload := stringify message in
  (wsClients, Stringified message :: flat_map (deliver env payload) wsClients).

Definition is_stringified (e : Effect) : bool :=
  match e with
  | Stringified _ => true
  | _ => false
  end.

(** The sockets a payload was sent to, and those whose failure was logged,
    in the order of the effects. *)
Definition sent_clients (effs : list Effect) : list Socket :=
  flat_map (fun e => match e with Sent c _ => [c] | _ => [] end) effs.

Definition logged_clients (effs : list Effect) : list Socket :=
  flat_map (fun e => match e with Logged c => [c] | _ => [] end) effs.

(** An open socket whose [send] succeeds, respectively throws. *)
Definition accepts (env : Sockets) (c : Socket) : bool :=
  (readyState env c =? 1)%Z && negb (send_throws env c).

Definition fails (env : Sockets) (c : Socket) : bool :=
  (readyState env c =? 1)%Z && send_throws env c.

End Server.

(** ** Vocabulary of the specification *)

Module Spec.

(** [centered = (raw - 0.5) * 2]. *)
Definition centered (value : Q) : Q := (value - (1 # 2)) * 2.

(** The sign of a number: 1, -1, or 0 at zero. *)
Definition sign (q : Q) : Q :=
  if JS.gt q 0 then 1 else if JS.lt q 0 then -(1) else 0.

(** A controller on a Pi: constructed, then [init] with the hardware
    present. *)
Definition pi_controller (o : Thumbstick.RawOptions) : Thumbstick.Controller :=
  fst (Thumbstick.init Thumbstick.ModulesLoaded (Thumbstick.new_controller o)).

(** A controller in mock mode: constructed, then [init] without the Pi
    modules. *)
Definition mock_controller (o : Thumbstick.RawOptions)
    : Thumbstick.Controller :=
  fst (Thumbstick.init Thumbstick.RequireThrows (Thumbstick.new_controller o)).

(** A controller on a Pi, default options, after one accepted press of the
    left button at time 1000: zoom mode is on. *)
Definition zoomed_controller : Thumbstick.Controller :=
  fst (Thumbstick.handleLeftButton 1000 true
         (pi_controller Thumbstick.no_options)).

(** Four readings that all succeed. *)
Definition readings (lx ly rx ry : Q) : Thumbstick.Reads :=
  Thumbstick.mkReads (Thumbstick.Reading lx) (Thumbstick.Reading ly)
    (Thumbstick.Reading rx) (Thumbstick.Reading ry).

(** A supplied value taken as it is, the default when the field is
    absent. *)
Definition supplied {A : Type} (v : option A) (d : A) : A :=
  match v with
  | Some x => x
  | None => d
  end.

(** The configuration an options object asks for: every supplied value as
    it is. *)
Definition requested (o : Thumbstick.RawOptions) : Thumbstick.Options :=
  {| Thumbstick.leftXChannel := supplied (Thumbstick.o_leftXChannel o) 0%Z;
     Thumbstick.leftYChannel := supplied (Thumbstick.o_leftYChannel o) 1%Z;
     Thumbstick.rightXChannel := supplied (Thumbstick.o_rightXChannel o) 2%Z;
     Thumbstick.rightYChannel := supplied (Thumbstick.o_rightYChannel o) 3%Z;
     Thumbstick.leftButtonPin := supplied (Thumbstick.o_leftButtonPin o) 17%Z;
     Thumbstick.rightButtonPin :=
       supplied (Thumbstick.o_rightButtonPin o) 27%Z;
     Thumbstick.deadzone := supplied (Thumbstick.o_deadzone o) (15 # 100);
     Thumbstick.pollInterval := supplied (Thumbstick.o_pollInterval o) 50%Z;
     Thumbstick.threshold := supplied (Thumbstick.o_threshold o) (3 # 10) |}.

(** A field supplied as the Number 0. *)
Definition zero_Z (v : option Z) : bool :=
  match v with
  | Some n => (n =? 0)%Z
  | None => false
  end.

Definition zero_Q (v : option Q) : bool :=
  match v with
  | Some q => Qeq_bool q 0
  | None => false
  end.

(** Some field of the options object is supplied as 0. *)
Definition passes_zero (o : Thumbstick.RawOptions) : bool :=
  zero_Z (Thumbstick.o_leftXChannel o) || zero_Z (Thumbstick.o_leftYChannel o)
  || zero_Z (Thumbstick.o_rightXChannel o)
  || zero_Z (Thumbstick.o_rightYChannel o)
  || zero_Z (Thumbstick.o_leftButtonPin o)
  || zero_Z (Thumbstick.o_rightButtonPin o)
  || zero_Q (Thumbstick.o_deadzone o)
  || zero_Z (Thumbstick.o_pollInterval o)
  || zero_Q (Thumbstick.o_threshold o).

(** A fraction field that is absent or within [0,1]. *)
Definition fraction_in_range (v : option Q) : Prop :=
  match v with
  | Some q => 0 <= q <= 1
  | None => True
  end.

(** An options object the specification calls invalid: a deadzone or a
    threshold outside [0,1], or a negative poll interval. *)
Definition invalid_options (o : Thumbstick.RawOptions) : Prop :=
  ~ fraction_in_range (Thumbstick.o_deadzone o)
  \/ ~ fraction_in_range (Thumbstick.o_threshold o)
  \/ (exists n, Thumbstick.o_pollInterval o = Some n /\ (n < 0)%Z).

(** Mock mode at rest: no channel and no button was opened, deadzone and
    threshold are positive, and no direction is recorded. *)
Definition mock_at_rest (c : Thumbstick.Controller) : Prop :=
  Thumbstick.channels c = None
  /\ Thumbstick.leftButton c = None
  /\ Thumbstick.rightButton c = None
  /\ 0 < Thumbstick.deadzone (Thumbstick.options c)
  /\ 0 < Thumbstick.threshold (Thumbstick.options c)
  /\ Thumbstick.lastDirection (Thumbstick.state c)
     = Thumbstick.mkLast None None.

(** The poll loop is stopped and no [poll] is suspended. *)
Definition quiescent (w : EventLoop.World) : Prop :=
  Thumbstick.isRunning (EventLoop.ctrl w) = false
  /\ EventLoop.in_flight w = 0%nat.

(** What a changed left-stick direction is routed to, by zoom mode. *)
Definition left_routing (zoomed : bool) (d : Thumbstick.Direction)
    : list Thumbstick.Event :=
  if zoomed then
    match d with
    | Thumbstick.Up => [Thumbstick.zoom Thumbstick.zoom_in]
    | Thumbstick.Down => [Thumbstick.zoom Thumbstick.zoom_out]
    | Thumbstick.Left | Thumbstick.Right => []
    end
  else [Thumbstick.pan d].

(** The events of the left stick ([zoom], [pan]) and of the right stick
    ([navigate]). *)
Definition is_left_stick (e : Thumbstick.Event) : bool :=
  match e with
  | Thumbstick.zoom _ | Thumbstick.pan _ => true
  | _ => false
  end.

Definition is_right_stick (e : Thumbstick.Event) : bool :=
  match e with
  | Thumbstick.navigate _ => true
  | _ => false
  end.

(** The direction a tick classifies each stick to: [None] when a read
    fails, [Some None] for no direction. *)
Definition left_dir (c : Thumbstick.Controller) (hw : Thumbstick.Reads)
    : option (option Thumbstick.Direction) :=
  match Thumbstick.read_all c hw with
  | Some (lx, ly, _, _) =>
      let o := Thumbstick.options c in
      Some (Thumbstick.getDirection o (Thumbstick.applyDeadzone o lx)
              (Thumbstick.applyDeadzone o ly))
  | None => None
  end.

Definition right_dir (c : Thumbstick.Controller) (hw : Thumbstick.Reads)
    : option (option Thumbstick.Direction) :=
  match Thumbstick.read_all c hw with
  | Some (_, _, rx, ry) =>
      let o := Thumbstick.options c in
      Some (Thumbstick.getDirection o (Thumbstick.applyDeadzone o rx)
              (Thumbstick.applyDeadzone o ry))
  | None => None
  end.

(** Consecutive poll ticks, nothing else in between. *)
Fixpoint ticks (c : Thumbstick.Controller) (hws : list Thumbstick.Reads)
    : Thumbstick.Controller * list Thumbstick.Event :=
  match hws with
  | [] => (c, [])
  | hw :: rest =>
      let (c1, e1) := Thumbstick.poll_try hw c in
      let (c2, e2) := ticks c1 rest in
      (c2, e1 ++ e2)
  end.

End Spec.

(** ** The controller: release of the hardware, sequences of button edges *)

Module Lifecycle.

Import Thumbstick EventLoop.

(** What [cleanup] does to the hardware. *)
Inductive Release : Type :=
| CloseChannel (ch : Channel)
| Unexport (pin : Gpio).

(** [Object.values(this.channels).forEach(ch => { if (ch && ch.close)
    ch.close(); })], guarded by [if (this.channels)]. *)
Definition close_channels (chs : option Channels) : list Release :=
  match chs with
  | Some ch =>
      [CloseChannel (leftX ch); CloseChannel (leftY ch);
       CloseChannel (rightX ch); CloseChannel (rightY ch)]
  | None => []
  end.

(** [if (button) button.unexport()]. *)
Definition unexport (button : option Gpio) : list Release :=
  match button with
  | Some pin => [Unexport pin]
  | None => []
  end.

(** [cleanup()]. *)
Definition cleanup (w : World) : World * list Release :=
  let w1 := stop w in
  (w1,
   close_channels (channels (ctrl w1))
     ++ unexport (leftButton (ctrl w1))
     ++ unexport (rightButton (ctrl w1))).

(** Calls of [handleLeftButton], one per edge: the clock and the level. *)
Fixpoint left_edges (c : Controller) (edges : list (Z * bool))
    : Controller * list Event :=
  match edges with
  | [] => (c, [])
  | (now, pressed) :: rest =>
      let (c1, e1) := handleLeftButton now pressed c in
      let (c2, e2) := left_edges c1 rest in
      (c2, e1 ++ e2)
  end.

(** The zoom mode the last [leftClick] of a list of events reports, [z0]
    when there is none. *)
Definition zoom_reported (evs : list Event) (z0 : bool) : bool :=
  fold_left
    (fun z e => match e with leftClick z' => z' | _ => z end) evs z0.

(** What never moves: configuration, hardware handles, debounce window. *)
Definition same_setup (c c' : Controller) : Prop :=
  options c' = options c /\ channels c' = channels c
  /\ leftButton c' = leftButton c /\ rightButton c' = rightButton c
  /\ clickDebounce c' = clickDebounce c.

Definition is_stop (i : Input) : bool :=
  match i with
  | CallStop => true
  | _ => false
  end.

(** The poll loop is in one of its three regular states: stopped with
    nothing pending; running with its tick suspended at the reads; running
    with exactly the timeout [pollTimer] names pending, at the configured
    delay. *)
Definition one_loop (w : World) : Prop :=
  (isRunning (ctrl w) = false /\ in_flight w = 0%nat /\ timers w = [])
  \/ (isRunning (ctrl w) = true /\ in_flight w = 1%nat /\ timers w = [])
  \/ (isRunning (ctrl w) = true /\ in_flight w = 0%nat
      /\ exists t, timers w = [(t, pollInterval (options (ctrl w)))]
                   /\ pollTimer (ctrl w) = Some t).

(** The loop was stopped with its tick suspended, and winds down: the tick
    is still suspended, or it has left one last timeout. *)
Definition winding_down (w : World) : Prop :=
  isRunning (ctrl w) = false
  /\ ((in_flight w = 1%nat /\ timers w = [])
      \/ (in_flight w = 0%nat /\ exists p, timers w = [p])).

End Lifecycle.

(** ** The server: HTTP handlers *)

Module Http.

Local Open Scope string_scope.

(** [s.replace(/c/g, by)] for a one-character pattern. *)
Fixpoint replace_char (c : ascii) (by_ : string) (s : string) : string :=
  match s with
  | EmptyString => EmptyString
  | String a rest =>
      if Ascii.eqb a c then by_ ++ replace_char c by_ rest
      else String a (replace_char c by_ rest)
  end.

(** [cleanseString(string)]. *)
Definition cleanseString (s : string) : string :=
  replace_char ">" "&gt;" (replace_char "<" "&lt;" s).

(** Whether a character occurs in a string, and how often. *)
Fixpoint occurs (c : ascii) (s : string) : bool :=
  match s with
  | EmptyString => false
  | String a rest => Ascii.eqb a c || occurs c rest
  end.

Fixpoint count (c : ascii) (s : string) : nat :=
  match s with
  | EmptyString => O
  | String a rest => (if Ascii.eqb a c then 1 else 0) + count c rest
  end.

(** [s.split(sep)] for a one-character separator. *)
Fixpoint split_on (sep : ascii) (s : string) : list string :=
  match s with
  | EmptyString => [EmptyString]
  | String a rest =>
      let parts := split_on sep rest in
      if Ascii.eqb a sep then EmptyString :: parts
      else
        match parts with
        | p :: ps => String a p :: ps
        | [] => [String a EmptyString]
        end
  end.

(** [arr.splice(-1)]: what it returns, the last element if there is one. *)
Definition splice_last {A : Type} (arr : list A) : list A :=
  match rev arr with
  | x :: _ => [x]
  | [] => []
  end.

(** [item.page.url.split("/").splice(-1)[0]], the channel id of an item
    of the channel list; [None] is [undefined]. *)
Definition channelId_of (url : string) : option string :=
  hd_error (splice_last (split_on "/" url)).

(** A value parsed from JSON. *)
#[warnings="-register-all"]
Inductive Json : Type :=
| JNull
| JBool (b : bool)
| JNumber (n : Q)
| JString (s : string)
| JArray (items : list Json)
| JObject (members : list (string * Json)).

(** Whether a value is truthy; [None] is [undefined]. *)
Definition truthy (v : option Json) : bool :=
  match v with
  | None | Some JNull => false
  | Some (JBool b) => b
  | Some (JNumber n) => negb (Qeq_bool n 0)
  | Some (JString s) => negb (String.eqb s EmptyString)
  | Some (JArray _) | Some (JObject _) => true
  end.

(** [data.key] on a truthy value: an object gives the member of that name,
    the last one when the text repeated the key; every other value has no
    such property. *)
Definition get (key : string) (data : Json) : option Json :=
  match data with
  | JObject members =>
      fold_left
        (fun found member =>
           if String.eqb key (fst member) then Some (snd member) else found)
        members None
  | _ => None
  end.

(** [cleanseString(v)] on any value: only a string has [replace]. *)
Definition cleanse_value (v : option Json)
    : JS.completion string JS.Exception :=
  match v with
  | Some (JString s) => JS.Normal (cleanseString s)
  | _ => JS.Throw (JS.Error "string.replace is not a function")
  end.

(** The values bound to the INSERT statement, in its column order. *)
Record FavoriteRow : Type := mkFavoriteRow {
  row_channelId : string;
  row_title : string;
  row_location : string;
  row_lng : option Json;
  row_lat : option Json
}.

(** What the handler of [/addfavorite] does before the database answers:
    it replies 400, it runs the INSERT with these values, or it throws. *)
Inductive AddFavorite : Type :=
| MissingFields
| Insert (row : FavoriteRow)
| HandlerThrows (e : JS.Exception).

(** The handler of [POST /addfavorite], up to [db.run]; [body] is
    [request.body]. *)
Definition addfavorite (body : option Json) : AddFavorite :=
  match body with
  | None => MissingFields
  | Some data =>
      if negb (truthy (Some data))
         || negb (truthy (get "channelId" data))
         || negb (truthy (get "title" data))
         || negb (truthy (get "location" data))
      then MissingFields
      else
        match cleanse_value (get "channelId" data) with
        | JS.Throw e => HandlerThrows e
        | JS.Normal channelId =>
            match cleanse_value (get "title" data) with
            | JS.Throw e => HandlerThrows e
            | JS.Normal title =>
                match cleanse_value (get "location" data) with
                | JS.Throw e => HandlerThrows e
                | JS.Normal location =>
                    Insert
                      (mkFavoriteRow channelId title location
                         (get "lng" data) (get "lat" data))
                end
            end
        end
  end.

(** A string that is not empty. *)
Definition filled (v : option Json) : option string :=
  match v with
  | Some (JString (String a s)) => Some (String a s)
  | _ => None
  end.

(** The relay pin [trigger]: [writeSync] stores the value, [readSync]
    returns it. *)
Definition writeSync (val : Z) (mockState : Z) : Z := val.
Definition readSync (mockState : Z) : Z := mockState.

(** The three display handlers: the pin afterwards and the
    [displayState] of the reply, [trigger.readSync() ^ 1]. *)
Definition displayToggle (pin : Z) : Z * Z :=
  let pin1 := writeSync (Z.lxor (readSync pin) 1) pin in
  (pin1, Z.lxor (readSync pin1) 1).

Definition displayOn (pin : Z) : Z * Z :=
  let pin1 := writeSync 0 pin in
  (pin1, Z.lxor (readSync pin1) 1).

Definition displayOff (pin : Z) : Z * Z :=
  let pin1 := writeSync 1 pin in
  (pin1, Z.lxor (readSync pin1) 1).

Inductive DisplayRequest : Type := Toggle | On | Off.

Definition display (r : DisplayRequest) (pin : Z) : Z * Z :=
  match r with
  | Toggle => displayToggle pin
  | On => displayOn pin
  | Off => displayOff pin
  end.

(** A sequence of display requests: the pin at the end and the
    [displayState] of every reply. *)
Fixpoint display_requests (pin : Z) (rs : list DisplayRequest)
    : Z * list Z :=
  match rs with
  | [] => (pin, [])
  | r :: rest =>
      let (pin1, reply) := display r pin in
      let (pin2, replies) := display_requests pin1 rest in
      (pin2, reply :: replies)
  end.

(** What [fetch(url, { redirect: 'manual' })] settles to: it rejects, or a
    response with its status and its [location] header. *)
Record Response : Type := mkResponse {
  status : Z;
  header_location : option string
}.

Inductive Fetched : Type :=
| FetchRejects
| Responds (res : Response).

(** What [resolveStreamUrl] settles to: [{ url, response }],
    [{ error, status }], [{ url }] once the redirects are used up, or a
    rejection when [fetch] rejects. *)
Inductive Resolution : Type :=
| Resolved (url : option string) (response : Response)
| Unexpected (status : Z)
| GaveUp (url : option string)
| Rejected.

(** The loop of [resolveStreamUrl], [n] iterations left, with the URLs it
    fetched in order.  [currentUrl] is [null] after a redirect without a
    [location] header. *)
Fixpoint follow (fetch : option string -> Fetched) (n : nat)
    (currentUrl : option string) : Resolution * list (option string) :=
  match n with
  | O => (GaveUp currentUrl, [])
  | S n' =>
      match fetch currentUrl with
      | FetchRejects => (Rejected, [currentUrl])
      | Responds res =>
          if (status res =? 301)%Z || (status res =? 302)%Z then
            let (r, fetched) := follow fetch n' (header_location res) in
            (r, currentUrl :: fetched)
          else if (status res =? 200)%Z then
            (Resolved currentUrl res, [currentUrl])
          else (Unexpected (status res), [currentUrl])
      end
  end.

(** [resolveStreamUrl(url, maxRedirects = 5)]. *)
Definition resolveStreamUrl (fetch : option string -> Fetched)
    (url : string) (maxRedirects : nat)
    : Resolution * list (option string) :=
  follow fetch maxRedirects (Some url).

End Http.

(** ** The server: the WebSocket endpoint *)

Module WsEndpoint.

Import Server.

Local Open Scope string_scope.

(** [{ type: 'connected', isRaspberryPi: isRaspberryPi }]. *)
Definition connected (isRaspberryPi : bool) : Message :=
  mkMessage "connected" [("isRaspberryPi", JBool isRaspberryPi)].

(** The handler of a new connection: the socket joins [wsClients], and if
    it is open it is sent the initial state; a [send] that throws leaves
    the handler. *)
Definition on_connection (env : Sockets) (isRaspberryPi : bool)
    (socket : Socket) (wsClients : Registry)
    : Registry * JS.completion (list Effect) JS.Exception :=
  (add socket wsClients,
   if (readyState env socket =? 1)%Z then
     if send_throws env socket then JS.Throw (JS.Error "send")
     else
       JS.Normal
         [Stringified (connected isRaspberryPi);
          Sent socket (stringify (connected isRaspberryPi))]
   else JS.Normal []).

(** What happens to the registry: a connection, and the [close] and
    [error] events of a socket. *)
Inductive RegistryEvent : Type :=
| Connects (socket : Socket)
| Closes (socket : Socket)
| Errors (socket : Socket).

Definition on_event (wsClients : Registry) (e : RegistryEvent) : Registry :=
  match e with
  | Connects s => add s wsClients
  | Closes s => delete s wsClients
  | Errors s => delete s wsClients
  end.

(** The registry after a history of such events, from the empty set. *)
Definition registry_after (history : list RegistryEvent) : Registry :=
  fold_left on_event history [].

End WsEndpoint.

(** ** Vocabulary for symmetries of the stick *)

Module Geometry.

(** The direction on the other side of the centre. *)
Definition opposite (d : Thumbstick.Direction) : Thumbstick.Direction :=
  match d with
  | Thumbstick.Up => Thumbstick.Down
  | Thumbstick.Down => Thumbstick.Up
  | Thumbstick.Left => Thumbstick.Right
  | Thumbstick.Right => Thumbstick.Left
  end.

(** The raw reading mirrored about the centre 0.5. *)
Definition mirrored (raw : Q) : Q := 1 - raw.

End Geometry.

(** * Properties *)

(** ** Comparisons *)

Lemma JS_lt_iff (a b : Q) : JS.lt a b = true <-> a < b.
Proof.
  unfold JS.lt. rewrite negb_true_iff.
  destruct (Qle_bool b a) eqn:E.
  - apply Qle_bool_iff in E. split; [discriminate | intros H; exfalso; lra].
  - split; [intros _ | reflexivity].
    destruct (Qlt_le_dec a b) as [H | H]; [exact H | ].
    apply Qle_bool_iff in H. congruence.
Qed.

Lemma JS_lt_false_iff (a b : Q) : JS.lt a b = false <-> b <= a.
Proof.
  destruct (JS.lt a b) eqn:E.
  - apply JS_lt_iff in E. split; [discriminate | intros H; exfalso; lra].
  - split; [intros _ | reflexivity].
    destruct (Qlt_le_dec a b) as [H | H]; [ | exact H].
    apply JS_lt_iff in H. congruence.
Qed.

Lemma JS_gt_iff (a b : Q) : JS.gt a b = true <-> b < a.
Proof. apply JS_lt_iff. Qed.

Lemma JS_gt_false_iff (a b : Q) : JS.gt a b = false <-> a <= b.
Proof. apply JS_lt_false_iff. Qed.

(** Turns the boolean tests of the source into order facts. *)
Ltac js_cmp :=
  repeat match goal with
  | H : JS.lt _ _ = true |- _ => apply JS_lt_iff in H
  | H : JS.lt _ _ = false |- _ => apply JS_lt_false_iff in H
  | H : JS.gt _ _ = true |- _ => apply JS_gt_iff in H
  | H : JS.gt _ _ = false |- _ => apply JS_gt_false_iff in H
  end.

(** [Qabs] on each side of zero, for [lra]. *)
Lemma Qabs_cases (x : Q) :
  (0 <= x /\ Qabs x == x) \/ (x < 0 /\ Qabs x == - x).
Proof.
  destruct (Qlt_le_dec x 0) as [H | H].
  - right. split; [exact H | apply Qabs_neg; lra].
  - left. split; [exact H | apply Qabs_pos; exact H].
Qed.

(** ** The direction classifier *)

Section Classifier.

Import Thumbstick.

Variable o : Options.

Lemma getDirection_none (x y : Q) :
  getDirection o x y = None <-> Qabs x < threshold o /\ Qabs y < threshold o.
Proof.
  unfold getDirection.
  destruct (JS.lt (Qabs x) (threshold o)) eqn:Hx;
    destruct (JS.lt (Qabs y) (threshold o)) eqn:Hy; cbn [andb]; js_cmp.
  - tauto.
  - split; [ | intros [_ H]; exfalso; lra].
    destruct (JS.gt (Qabs x) (Qabs y)); discriminate.
  - split; [ | intros [H _]; exfalso; lra].
    destruct (JS.gt (Qabs x) (Qabs y)); discriminate.
  - split; [ | intros [H _]; exfalso; lra].
    destruct (JS.gt (Qabs x) (Qabs y)); discriminate.
Qed.

(** Outside the dead square the result is read off the larger axis, the
    y axis on a tie. *)
Lemma getDirection_axis (x y : Q) :
  ~ (Qabs x < threshold o /\ Qabs y < threshold o) ->
  getDirection o x y =
    Some (if JS.gt (Qabs x) (Qabs y)
          then (if JS.gt x 0 then Right else Left)
          else (if JS.gt y 0 then Down else Up)).
Proof.
  intros Hout. unfold getDirection.
  destruct (JS.lt (Qabs x) (threshold o) && JS.lt (Qabs y) (threshold o))
    eqn:E.
  - apply andb_true_iff in E. destruct E as [Hx Hy]. js_cmp. tauto.
  - destruct (JS.gt (Qabs x) (Qabs y)); reflexivity.
Qed.

End Classifier.

(** C7: [getDirection] returns [null] exactly when both magnitudes are
    below the threshold; otherwise the axis of strictly larger magnitude
    decides (positive x right, negative x left, positive y down, negative y
    up), a tie goes to the y axis, and [getDirection(x, x)] with
    [x >= threshold] is up or down. *)
Theorem C7_getDirection_classifies :
  forall (o : Thumbstick.Options) (x y : Q),
    let t := Thumbstick.threshold o in
    let dir := Thumbstick.getDirection o in
    (dir x y = None <-> Qabs x < t /\ Qabs y < t) /\
    (~ (Qabs x < t /\ Qabs y < t) ->
       (Qabs y < Qabs x -> 0 < x -> dir x y = Some Thumbstick.Right) /\
       (Qabs y < Qabs x -> x < 0 -> dir x y = Some Thumbstick.Left) /\
       (Qabs x < Qabs y -> 0 < y -> dir x y = Some Thumbstick.Down) /\
       (Qabs x < Qabs y -> y < 0 -> dir x y = Some Thumbstick.Up) /\
       (Qabs x == Qabs y ->
          (0 < y -> dir x y = Some Thumbstick.Down) /\
          (y <= 0 -> dir x y = Some Thumbstick.Up))) /\
    (t <= x ->
       dir x x = Some Thumbstick.Up \/ dir x x = Some Thumbstick.Down).
Proof.
  intros o x y t dir. subst t dir. split; [apply getDirection_none | split].
  - intros Hout. rewrite (getDirection_axis o x y Hout).
    destruct (JS.gt (Qabs x) (Qabs y)) eqn:Hxy;
      destruct (JS.gt x 0) eqn:Hx; destruct (JS.gt y 0) eqn:Hy; js_cmp;
      destruct (Qabs_cases x) as [[? ?] | [? ?]];
      destruct (Qabs_cases y) as [[? ?] | [? ?]];
      repeat split; intros; try reflexivity; exfalso; lra.
  - intros Hx.
    assert (Hout : ~ (Qabs x < Thumbstick.threshold o
                      /\ Qabs x < Thumbstick.threshold o)).
    { intros [H _]. pose proof (Qle_Qabs x). lra. }
    rewrite (getDirection_axis o x x Hout).
    assert (E : JS.gt (Qabs x) (Qabs x) = false).
    { apply JS_gt_false_iff. lra. }
    rewrite E. destruct (JS.gt x 0); [right | left]; reflexivity.
Qed.

(** The classifier on a tie outside the dead square: default threshold,
    [x = y = 1/2]. *)
Lemma C7_getDirection_classifies_witness :
  let o := Thumbstick.merge_options Thumbstick.no_options in
  ~ (Qabs (1 # 2) < Thumbstick.threshold o /\
     Qabs (1 # 2) < Thumbstick.threshold o) /\
  Qabs (1 # 2) == Qabs (1 # 2) /\
  0 < 1 # 2 /\
  Thumbstick.getDirection o (1 # 2) (1 # 2) = Some Thumbstick.Down.
Proof.
  intros o.
  assert (Hout : ~ (Qabs (1 # 2) < Thumbstick.threshold o /\
                    Qabs (1 # 2) < Thumbstick.threshold o)).
  { intros [A _]. vm_compute in A. discriminate. }
  split; [exact Hout | ].
  split; [reflexivity | ].
  split; [reflexivity | ].
  destruct (C7_getDirection_classifies o (1 # 2) (1 # 2)) as [_ [H _]].
  destruct (H Hout) as [_ [_ [_ [_ Htie]]]].
  apply Htie; reflexivity.
Defined.

(** ** The deadzone normaliser *)

Section Deadzone.

Import Thumbstick Spec.

Variable o : Options.
Hypothesis deadzone_range : 0 <= deadzone o < 1.

(** The three pieces of [applyDeadzone], cleared of the division. *)
Lemma applyDeadzone_pieces (r : Q) :
  let c := centered r in
  let F := applyDeadzone o r * (1 - deadzone o) in
  (- deadzone o < c < deadzone o /\ applyDeadzone o r = 0) \/
  (0 < c /\ deadzone o <= c /\ F == c - deadzone o) \/
  (c <= 0 /\ c <= - deadzone o /\ F == c + deadzone o).
Proof.
  intros c F. subst F. unfold applyDeadzone. fold (centered r). fold c.
  destruct (JS.lt (Qabs c) (deadzone o)) eqn:Hd; js_cmp.
  - left. split; [ | reflexivity].
    destruct (Qabs_cases c) as [[? E] | [? E]]; rewrite E in Hd; lra.
  - right.
    destruct (JS.gt c 0) eqn:Hs; js_cmp.
    + left. destruct (Qabs_cases c) as [[? E] | [? E]]; [ | lra].
      rewrite E in Hd. split; [exact Hs | split; [exact Hd | ] ].
      rewrite E. field. lra.
    + right. destruct (Qabs_cases c) as [[? E] | [? E]].
      * rewrite E in Hd. split; [exact Hs | split; [lra | ] ].
        rewrite E. field_simplify; [ | lra]. lra.
      * rewrite E in Hd. split; [exact Hs | split; [lra | ] ].
        rewrite E. field_simplify; [ | lra]. lra.
Qed.

Lemma scale_le (a b : Q) :
  a * (1 - deadzone o) <= b * (1 - deadzone o) -> a <= b.
Proof. intros H. apply Qmult_le_r in H; [exact H | lra]. Qed.

Lemma applyDeadzone_monotone (r r' : Q) :
  r <= r' -> applyDeadzone o r <= applyDeadzone o r'.
Proof.
  intros Hr. apply scale_le.
  assert (Hc : centered r <= centered r') by (unfold centered; lra).
  destruct (applyDeadzone_pieces r) as [[? E] | [[? [? E]] | [? [? E]]]];
    destruct (applyDeadzone_pieces r') as [[? E'] | [[? [? E']] | [? [? E']]]];
    rewrite ?E, ?E'; lra.
Qed.

Lemma applyDeadzone_bounded (r : Q) :
  0 <= r <= 1 -> Qabs (applyDeadzone o r) <= 1.
Proof.
  intros Hr. apply Qabs_Qle_condition.
  assert (Hc : -(1) <= centered r <= 1) by (unfold centered; lra).
  split; apply scale_le;
    destruct (applyDeadzone_pieces r) as [[? E] | [[? [? E]] | [? [? E]]]];
    rewrite ?E; lra.
Qed.

Lemma applyDeadzone_zero_iff (r : Q) :
  applyDeadzone o r == 0 <-> Qabs (centered r) <= deadzone o.
Proof.
  assert (Hz : applyDeadzone o r == 0 <->
               applyDeadzone o r * (1 - deadzone o) == 0).
  { split; intros H.
    - rewrite H. lra.
    - apply Qmult_integral in H. destruct H as [H | H]; [exact H | lra]. }
  rewrite Hz.
  destruct (applyDeadzone_pieces r) as [[? E] | [[? [? E]] | [? [? E]]]];
    destruct (Qabs_cases (centered r)) as [[? A] | [? A]];
    rewrite ?E, A; split; intros; lra.
Qed.

Lemma applyDeadzone_formula (r : Q) :
  deadzone o <= Qabs (centered r) ->
  applyDeadzone o r ==
    sign (centered r) * ((Qabs (centered r) - deadzone o) / (1 - deadzone o)).
Proof.
  intros Hd. unfold applyDeadzone, sign. fold (centered r).
  assert (E : JS.lt (Qabs (centered r)) (deadzone o) = false)
    by (apply JS_lt_false_iff; exact Hd).
  rewrite E.
  destruct (JS.gt (centered r) 0) eqn:Hs; [reflexivity | ].
  destruct (JS.lt (centered r) 0) eqn:Hn; [reflexivity | ].
  js_cmp.
  assert (Hc : centered r == 0) by lra.
  assert (Hz : Qabs (centered r) == 0) by (rewrite Hc; reflexivity).
  assert (Hd0 : deadzone o == 0) by lra.
  rewrite Hz, Hd0. field.
Qed.

End Deadzone.

(** C8: for a raw reading in [0,1] and a deadzone in [0,1), [applyDeadzone]
    returns 0 when [|centered| < deadzone] and also at
    [|centered| = deadzone], and
    [sign(centered) * (|centered| - deadzone) / (1 - deadzone)] otherwise;
    the result lies in [-1,1], is 0 at the centre 0.5, is monotone in the
    reading, and is -1 and 1 at the readings 0 and 1. *)
Theorem C8_applyDeadzone_normalises :
  forall (o : Thumbstick.Options) (r : Q),
    0 <= Thumbstick.deadzone o < 1 ->
    0 <= r <= 1 ->
    let d := Thumbstick.deadzone o in
    let c := Spec.centered r in
    let normalize := Thumbstick.applyDeadzone o in
    (Qabs c < d -> normalize r = 0) /\
    (Qabs c == d -> normalize r == 0) /\
    (d <= Qabs c -> normalize r == Spec.sign c * ((Qabs c - d) / (1 - d))) /\
    (normalize r == 0 <-> Qabs c <= d) /\
    Qabs (normalize r) <= 1 /\
    normalize (1 # 2) == 0 /\
    (forall r' : Q, 0 <= r' <= 1 -> r <= r' -> normalize r <= normalize r') /\
    normalize 0 == -(1) /\
    normalize 1 == 1.
Proof.
  intros o r Hd Hr d c normalize. subst d c normalize.
  split.
  { intros H. unfold Thumbstick.applyDeadzone. fold (Spec.centered r).
    apply JS_lt_iff in H. rewrite H. reflexivity. }
  split.
  { intros H. apply (applyDeadzone_zero_iff o Hd). rewrite H. lra. }
  split; [apply (applyDeadzone_formula o Hd) | ].
  split; [apply (applyDeadzone_zero_iff o Hd) | ].
  split; [apply (applyDeadzone_bounded o Hd); exact Hr | ].
  split.
  { apply (applyDeadzone_zero_iff o Hd).
    assert (E : Spec.centered (1 # 2) == 0) by (unfold Spec.centered; lra).
    rewrite E. cbn. lra. }
  split; [intros r' _ Hle; apply (applyDeadzone_monotone o Hd); exact Hle | ].
  split.
  - rewrite (applyDeadzone_formula o Hd).
    + assert (E : Spec.centered 0 == -(1)) by (unfold Spec.centered; lra).
      assert (S : Spec.sign (Spec.centered 0) = -(1)) by reflexivity.
      assert (A : Qabs (-(1)) == 1) by reflexivity.
      rewrite S, E, A. field. lra.
    + assert (E : Spec.centered 0 == -(1)) by (unfold Spec.centered; lra).
      rewrite E. cbn. lra.
  - rewrite (applyDeadzone_formula o Hd).
    + assert (E : Spec.centered 1 == 1) by (unfold Spec.centered; lra).
      assert (S : Spec.sign (Spec.centered 1) = 1) by reflexivity.
      assert (A : Qabs 1 == 1) by reflexivity.
      rewrite S, E, A. field. lra.
    + assert (E : Spec.centered 1 == 1) by (unfold Spec.centered; lra).
      rewrite E. cbn. lra.
Qed.

(** The reading 0.9 with the default deadzone 0.15. *)
Lemma C8_applyDeadzone_normalises_witness :
  let o := Thumbstick.merge_options Thumbstick.no_options in
  0 <= Thumbstick.deadzone o < 1 /\
  0 <= 9 # 10 <= 1 /\
  Qabs (Thumbstick.applyDeadzone o (9 # 10)) <= 1 /\
  Thumbstick.applyDeadzone o 0 == -(1) /\
  Thumbstick.applyDeadzone o 1 == 1.
Proof.
  intros o.
  assert (Hd : 0 <= Thumbstick.deadzone o < 1)
    by (split; [discriminate | reflexivity]).
  assert (Hr : 0 <= 9 # 10 <= 1) by (split; discriminate).
  split; [exact Hd | split; [exact Hr | ] ].
  destruct (C8_applyDeadzone_normalises o (9 # 10) Hd Hr)
    as [_ [_ [_ [_ [Hb [_ [_ [H0 H1]]]]]]]].
  split; [exact Hb | split; [exact H0 | exact H1] ].
Defined.

(** ** One poll tick *)

Section Tick.

Import Thumbstick Spec.

Lemma strict_neq_false (a b : option Direction) :
  strict_neq a b = false <-> a = b.
Proof.
  destruct a as [[] | ], b as [[] | ]; cbn; split; intros H;
    try reflexivity; try discriminate.
Qed.

Lemma strict_neq_true (a b : option Direction) :
  strict_neq a b = true <-> a <> b.
Proof.
  destruct a as [[] | ], b as [[] | ]; cbn; split; intros H;
    try reflexivity; try discriminate; try congruence.
Qed.

Lemma detect_left_events (dir : option Direction) (c : Controller) :
  snd (detect_left dir c) =
    if strict_neq dir (last_left (lastDirection (state c))) then
      match dir with
      | Some d => left_routing (zoomMode (left (state c))) d
      | None => []
      end
    else [].
Proof.
  unfold detect_left, left_routing.
  destruct (strict_neq dir (last_left (lastDirection (state c))));
    [ | reflexivity].
  destruct dir as [d | ]; [ | reflexivity]. cbn.
  destruct (zoomMode (left (state c))); [ | reflexivity].
  destruct d; reflexivity.
Qed.

Lemma detect_right_events (dir : option Direction) (c : Controller) :
  snd (detect_right dir c) =
    if strict_neq dir (last_right (lastDirection (state c))) then
      match dir with
      | Some d => [navigate d]
      | None => []
      end
    else [].
Proof.
  unfold detect_right.
  destruct (strict_neq dir (last_right (lastDirection (state c))));
    [ | reflexivity].
  destruct dir; reflexivity.
Qed.

(** What [detect_left] leaves of the controller: only [lastDirection.left]
    moves, to the direction just classified. *)
Lemma detect_left_ctrl (dir : option Direction) (c : Controller) :
  fst (detect_left dir c) = set_state (set_last_left dir (state c)) c.
Proof.
  unfold detect_left.
  destruct (strict_neq dir (last_left (lastDirection (state c)))) eqn:E.
  - destruct dir as [d | ]; [ | reflexivity]. cbn.
    destruct (zoomMode (left (state c))); [ | reflexivity].
    destruct (Direction_eqb d Up); [reflexivity | ].
    destruct (Direction_eqb d Down); reflexivity.
  - apply strict_neq_false in E. subst dir.
    destruct c as [? ? ? ? ? ? [? ? [? ?]] ? ? ?]. reflexivity.
Qed.

Lemma detect_right_ctrl (dir : option Direction) (c : Controller) :
  fst (detect_right dir c) = set_state (set_last_right dir (state c)) c.
Proof.
  unfold detect_right.
  destruct (strict_neq dir (last_right (lastDirection (state c)))) eqn:E.
  - destruct dir; reflexivity.
  - apply strict_neq_false in E. subst dir.
    destruct c as [? ? ? ? ? ? [? ? [? ?]] ? ? ?]. reflexivity.
Qed.

(** A tick whose reads fail changes nothing and emits nothing. *)
Lemma poll_try_failed (hw : Reads) (c : Controller) :
  read_all c hw = None -> poll_try hw c = (c, []).
Proof. intros H. unfold poll_try. rewrite H. reflexivity. Qed.

(** A tick whose reads succeed, as the two detections in sequence. *)
Lemma poll_try_read (hw : Reads) (c : Controller) (lx ly rx ry : Q) :
  read_all c hw = Some (lx, ly, rx, ry) ->
  let o := options c in
  let lX := applyDeadzone o lx in
  let lY := applyDeadzone o ly in
  let rX := applyDeadzone o rx in
  let rY := applyDeadzone o ry in
  let c1 :=
    set_state (set_right_axes rX rY (set_left_axes lX lY (state c))) c in
  let c2 := fst (detect_left (getDirection o lX lY) c1) in
  poll_try hw c =
    (fst (detect_right (getDirection o rX rY) c2),
     snd (detect_left (getDirection o lX lY) c1)
       ++ snd (detect_right (getDirection o rX rY) c2)).
Proof.
  intros H. cbv zeta. unfold poll_try. rewrite H.
  cbn [options set_state].
  destruct (detect_left _ _) as [c2 evl] eqn:El.
  cbn [fst snd].
  assert (Eo : options c2 = options c).
  { change c2 with (fst (c2, evl)). rewrite <- El, detect_left_ctrl.
    reflexivity. }
  rewrite Eo.
  destruct (detect_right _ c2) as [c3 evr]. reflexivity.
Qed.

Lemma left_routing_left_stick (z : bool) (d : Direction) :
  filter is_left_stick (left_routing z d) = left_routing z d
  /\ filter is_right_stick (left_routing z d) = [].
Proof. destruct z, d; split; reflexivity. Qed.

(** The left-stick and right-stick events of one tick. *)
Lemma poll_try_events (hw : Reads) (c : Controller) :
  let evs := snd (poll_try hw c) in
  filter is_left_stick evs =
    match left_dir c hw with
    | Some (Some d) =>
        if strict_neq (Some d) (last_left (lastDirection (state c)))
        then left_routing (zoomMode (left (state c))) d
        else []
    | _ => []
    end
  /\ filter is_right_stick evs =
    match right_dir c hw with
    | Some (Some d) =>
        if strict_neq (Some d) (last_right (lastDirection (state c)))
        then [navigate d]
        else []
    | _ => []
    end
  /\ forall e, In e evs -> is_left_stick e || is_right_stick e = true.
Proof.
  cbv zeta. unfold left_dir, right_dir.
  destruct (read_all c hw) as [[[[lx ly] rx] ry] | ] eqn:H.
  - rewrite (poll_try_read hw c lx ly rx ry H). cbn [snd].
    rewrite detect_left_events, detect_right_events, detect_left_ctrl.
    cbn [state set_state lastDirection set_last_left last_right left
         zoomMode set_left_axes set_right_axes last_left].
    set (o := options c).
    set (ld := getDirection o (applyDeadzone o lx) (applyDeadzone o ly)).
    set (rd := getDirection o (applyDeadzone o rx) (applyDeadzone o ry)).
    rewrite !filter_app.
    destruct ld as [dl | ], rd as [dr | ];
      destruct (strict_neq _ (last_left _));
      destruct (strict_neq _ (last_right _));
      try destruct (left_routing_left_stick (zoomMode (left (state c))) dl)
        as [Fl Fr];
      cbn [filter is_left_stick is_right_stick app];
      rewrite ?Fl, ?Fr, ?app_nil_r;
      (split; [reflexivity | split; [reflexivity | ] ]);
      intros e He; cbn in He;
      try (destruct (zoomMode (left (state c))), dl; cbn in He);
      intuition (subst; reflexivity).
  - rewrite (poll_try_failed hw c H). cbn.
    split; [reflexivity | split; [reflexivity | intros e []] ].
Qed.

End Tick.

(** C6: when the left stick changes to a direction, zoom mode routes up to
    [zoom in] and down to [zoom out] and drops left and right, and outside
    zoom mode the direction is panned; when the right stick changes to a
    direction it is navigated, whatever the zoom mode. *)
Theorem C6_direction_change_routing :
  forall (c : Thumbstick.Controller) (hw : Thumbstick.Reads)
         (d : Thumbstick.Direction),
    let last := Thumbstick.lastDirection (Thumbstick.state c) in
    let zoomed := Thumbstick.zoomMode (Thumbstick.left (Thumbstick.state c)) in
    let evs := snd (Thumbstick.poll_try hw c) in
    (Spec.left_dir c hw = Some (Some d) ->
     Thumbstick.last_left last <> Some d ->
     let evl := filter Spec.is_left_stick evs in
     (zoomed = true -> d = Thumbstick.Up ->
        evl = [Thumbstick.zoom Thumbstick.zoom_in]) /\
     (zoomed = true -> d = Thumbstick.Down ->
        evl = [Thumbstick.zoom Thumbstick.zoom_out]) /\
     (zoomed = true -> d = Thumbstick.Left \/ d = Thumbstick.Right ->
        evl = []) /\
     (zoomed = false -> evl = [Thumbstick.pan d])) /\
    (Spec.right_dir c hw = Some (Some d) ->
     Thumbstick.last_right last <> Some d ->
     filter Spec.is_right_stick evs = [Thumbstick.navigate d]).
Proof.
  intros c hw d last zoomed evs. subst last zoomed evs.
  destruct (poll_try_events hw c) as [Hl [Hr _]]. split.
  - intros Hd Hne. cbv zeta. rewrite Hl, Hd.
    assert (E : Thumbstick.strict_neq (Some d)
                  (Thumbstick.last_left
                     (Thumbstick.lastDirection (Thumbstick.state c))) = true).
    { apply strict_neq_true. congruence. }
    rewrite E. unfold Spec.left_routing.
    repeat split; intros Hz; rewrite Hz; intros; subst;
      try reflexivity.
    destruct H; subst; reflexivity.
  - intros Hd Hne. rewrite Hr, Hd.
    assert (E : Thumbstick.strict_neq (Some d)
                  (Thumbstick.last_right
                     (Thumbstick.lastDirection (Thumbstick.state c))) = true).
    { apply strict_neq_true. congruence. }
    rewrite E. reflexivity.
Qed.

(** Default configuration on a Pi, left stick pushed right (0.9, 0.5) and
    right stick pushed up (0.5, 0.1), from rest. *)
Lemma C6_direction_change_routing_witness :
  let c := Spec.pi_controller Thumbstick.no_options in
  let hw := Spec.readings (9 # 10) (1 # 2) (1 # 2) (1 # 10) in
  Spec.left_dir c hw = Some (Some Thumbstick.Right) /\
  Thumbstick.last_left (Thumbstick.lastDirection (Thumbstick.state c))
    <> Some Thumbstick.Right /\
  Thumbstick.zoomMode (Thumbstick.left (Thumbstick.state c)) = false /\
  filter Spec.is_left_stick (snd (Thumbstick.poll_try hw c))
    = [Thumbstick.pan Thumbstick.Right] /\
  Spec.right_dir c hw = Some (Some Thumbstick.Up) /\
  Thumbstick.last_right (Thumbstick.lastDirection (Thumbstick.state c))
    <> Some Thumbstick.Up /\
  filter Spec.is_right_stick (snd (Thumbstick.poll_try hw c))
    = [Thumbstick.navigate Thumbstick.Up].
Proof.
  intros c hw.
  assert (Hl : Spec.left_dir c hw = Some (Some Thumbstick.Right))
    by (vm_compute; reflexivity).
  assert (Hr : Spec.right_dir c hw = Some (Some Thumbstick.Up))
    by (vm_compute; reflexivity).
  assert (Nl : Thumbstick.last_left
                 (Thumbstick.lastDirection (Thumbstick.state c))
               <> Some Thumbstick.Right) by (cbn; discriminate).
  assert (Nr : Thumbstick.last_right
                 (Thumbstick.lastDirection (Thumbstick.state c))
               <> Some Thumbstick.Up) by (cbn; discriminate).
  split; [exact Hl | split; [exact Nl | split; [reflexivity | ] ] ].
  split.
  - destruct (C6_direction_change_routing c hw Thumbstick.Right) as [H _].
    destruct (H Hl Nl) as [_ [_ [_ Hpan]]]. apply Hpan. reflexivity.
  - split; [exact Hr | split; [exact Nr | ] ].
    destruct (C6_direction_change_routing c hw Thumbstick.Up) as [_ H].
    exact (H Hr Nr).
Defined.

(** ** Sequences of ticks *)

Section Holding.

Import Thumbstick Spec.

(** The controller after a tick: the axes and [lastDirection] move, the
    rest stays. *)
Lemma poll_try_ctrl (hw : Reads) (c : Controller) :
  fst (poll_try hw c) =
    match read_all c hw with
    | None => c
    | Some (lx, ly, rx, ry) =>
        let o := options c in
        let lX := applyDeadzone o lx in
        let lY := applyDeadzone o ly in
        let rX := applyDeadzone o rx in
        let rY := applyDeadzone o ry in
        set_state
          (mkState
             (mkLeft lX lY (left_button (left (state c)))
                (zoomMode (left (state c))))
             (mkRight rX rY (right_button (right (state c))))
             (mkLast (getDirection o lX lY) (getDirection o rX rY)))
          c
    end.
Proof.
  destruct (read_all c hw) as [[[[lx ly] rx] ry] | ] eqn:H.
  - rewrite (poll_try_read hw c lx ly rx ry H). cbn [fst].
    rewrite detect_right_ctrl, detect_left_ctrl. reflexivity.
  - rewrite (poll_try_failed hw c H). reflexivity.
Qed.

Lemma poll_try_frame (hw : Reads) (c : Controller) :
  let c' := fst (poll_try hw c) in
  options c' = options c /\ channels c' = channels c
  /\ zoomMode (left (state c')) = zoomMode (left (state c))
  /\ isRunning c' = isRunning c /\ pollTimer c' = pollTimer c.
Proof.
  cbv zeta. rewrite poll_try_ctrl.
  destruct (read_all c hw) as [[[[lx ly] rx] ry] | ]; cbn; tauto.
Qed.

Lemma read_all_frame (c c' : Controller) (hw : Reads) :
  channels c' = channels c -> read_all c' hw = read_all c hw.
Proof. intros H. unfold read_all. rewrite H. reflexivity. Qed.

Lemma dirs_frame (hw hw' : Reads) (c : Controller) :
  left_dir (fst (poll_try hw c)) hw' = left_dir c hw'
  /\ right_dir (fst (poll_try hw c)) hw' = right_dir c hw'.
Proof.
  destruct (poll_try_frame hw c) as [Ho [Hc _]].
  unfold left_dir, right_dir.
  rewrite (read_all_frame c _ hw' Hc), Ho. split; reflexivity.
Qed.

(** After a tick whose reads succeed, [lastDirection] is what the tick
    classified. *)
Lemma poll_try_last (hw : Reads) (c : Controller) :
  let c' := fst (poll_try hw c) in
  (forall d, left_dir c hw = Some d ->
             last_left (lastDirection (state c')) = d)
  /\ (forall d, right_dir c hw = Some d ->
                last_right (lastDirection (state c')) = d).
Proof.
  cbv zeta. rewrite poll_try_ctrl. unfold left_dir, right_dir.
  destruct (read_all c hw) as [[[[lx ly] rx] ry] | ]; cbn;
    split; intros d H; congruence.
Qed.

Lemma ticks_cons (c : Controller) (hw : Reads) (hws : list Reads) :
  ticks c (hw :: hws) =
    (fst (ticks (fst (poll_try hw c)) hws),
     snd (poll_try hw c) ++ snd (ticks (fst (poll_try hw c)) hws)).
Proof.
  cbn [ticks]. destruct (poll_try hw c) as [c1 e1]. cbn [fst snd].
  destruct (ticks c1 hws) as [c2 e2]. reflexivity.
Qed.

(** While the left stick stays where [lastDirection] has it, nothing is
    emitted for it. *)
Lemma held_left_silent (d : Direction) (hws : list Reads) :
  forall c,
    last_left (lastDirection (state c)) = Some d ->
    Forall (fun hw => left_dir c hw = Some (Some d)) hws ->
    filter is_left_stick (snd (ticks c hws)) = [].
Proof.
  induction hws as [ | hw hws IH]; intros c Hlast Hall; [reflexivity | ].
  rewrite ticks_cons. cbn [snd]. rewrite filter_app.
  inversion Hall as [ | ? ? Hhw Hrest]; subst.
  destruct (poll_try_events hw c) as [Hl _]. rewrite Hl, Hhw, Hlast.
  assert (E : strict_neq (Some d) (Some d) = false)
    by (apply strict_neq_false; reflexivity).
  rewrite E. cbn [app]. apply IH.
  - destruct (poll_try_last hw c) as [H _]. apply H. exact Hhw.
  - eapply Forall_impl; [ | exact Hrest].
    intros hw' H'. destruct (dirs_frame hw hw' c) as [F _].
    rewrite F. exact H'.
Qed.

Lemma held_right_silent (d : Direction) (hws : list Reads) :
  forall c,
    last_right (lastDirection (state c)) = Some d ->
    Forall (fun hw => right_dir c hw = Some (Some d)) hws ->
    filter is_right_stick (snd (ticks c hws)) = [].
Proof.
  induction hws as [ | hw hws IH]; intros c Hlast Hall; [reflexivity | ].
  rewrite ticks_cons. cbn [snd]. rewrite filter_app.
  inversion Hall as [ | ? ? Hhw Hrest]; subst.
  destruct (poll_try_events hw c) as [_ [Hr _]]. rewrite Hr, Hhw, Hlast.
  assert (E : strict_neq (Some d) (Some d) = false)
    by (apply strict_neq_false; reflexivity).
  rewrite E. cbn [app]. apply IH.
  - destruct (poll_try_last hw c) as [_ H]. apply H. exact Hhw.
  - eapply Forall_impl; [ | exact Hrest].
    intros hw' H'. destruct (dirs_frame hw hw' c) as [_ F].
    rewrite F. exact H'.
Qed.

(** Holding the left stick in a new direction: the first tick routes it,
    the later ones are silent. *)
Lemma hold_left (d : Direction) (c : Controller) (hws : list Reads) :
  hws <> [] ->
  last_left (lastDirection (state c)) <> Some d ->
  Forall (fun hw => left_dir c hw = Some (Some d)) hws ->
  filter is_left_stick (snd (ticks c hws)) =
    left_routing (zoomMode (left (state c))) d.
Proof.
  intros Hne Hlast Hall. destruct hws as [ | hw hws]; [congruence | ].
  rewrite ticks_cons. cbn [snd]. rewrite filter_app.
  inversion Hall as [ | ? ? Hhw Hrest]; subst.
  destruct (poll_try_events hw c) as [Hl _]. rewrite Hl, Hhw.
  assert (E : strict_neq (Some d) (last_left (lastDirection (state c)))
              = true) by (apply strict_neq_true; congruence).
  rewrite E, (held_left_silent d hws); [apply app_nil_r | | ].
  - destruct (poll_try_last hw c) as [H _]. apply H. exact Hhw.
  - eapply Forall_impl; [ | exact Hrest].
    intros hw' H'. destruct (dirs_frame hw hw' c) as [F _].
    rewrite F. exact H'.
Qed.

Lemma hold_right (d : Direction) (c : Controller) (hws : list Reads) :
  hws <> [] ->
  last_right (lastDirection (state c)) <> Some d ->
  Forall (fun hw => right_dir c hw = Some (Some d)) hws ->
  filter is_right_stick (snd (ticks c hws)) = [navigate d].
Proof.
  intros Hne Hlast Hall. destruct hws as [ | hw hws]; [congruence | ].
  rewrite ticks_cons. cbn [snd]. rewrite filter_app.
  inversion Hall as [ | ? ? Hhw Hrest]; subst.
  destruct (poll_try_events hw c) as [_ [Hr _]]. rewrite Hr, Hhw.
  assert (E : strict_neq (Some d) (last_right (lastDirection (state c)))
              = true) by (apply strict_neq_true; congruence).
  rewrite E, (held_right_silent d hws); [reflexivity | | ].
  - destruct (poll_try_last hw c) as [_ H]. apply H. exact Hhw.
  - eapply Forall_impl; [ | exact Hrest].
    intros hw' H'. destruct (dirs_frame hw hw' c) as [_ F].
    rewrite F. exact H'.
Qed.

End Holding.

(** C5, as stated, fails: in zoom mode the left stick held to the left for
    three ticks, from rest, emits no event at all instead of exactly one. *)
Lemma C5_hold_left_in_zoom_mode_counterexample :
  let c := Spec.zoomed_controller in
  let hw := Spec.readings (1 # 10) (1 # 2) (1 # 2) (1 # 2) in
  let hws := [hw; hw; hw] in
  Thumbstick.zoomMode (Thumbstick.left (Thumbstick.state c)) = true /\
  Thumbstick.last_left (Thumbstick.lastDirection (Thumbstick.state c))
    = None /\
  Forall (fun hw => Spec.left_dir c hw = Some (Some Thumbstick.Left)) hws /\
  snd (Spec.ticks c hws) = [] /\
  List.length (filter Spec.is_left_stick (snd (Spec.ticks c hws))) <> 1%nat.
Proof.
  cbv zeta.
  split; [reflexivity | split; [reflexivity | split] ].
  - repeat constructor.
  - split; [vm_compute; reflexivity | vm_compute; discriminate].
Qed.

(** C5, amended: a tick emits for a stick only if the direction it
    classifies differs from [lastDirection]; after the tick [lastDirection]
    is that direction; a change to no direction updates [lastDirection] and
    emits nothing; holding a new direction for one or more consecutive ticks
    emits exactly one event for that stick ([navigate] for the right stick,
    the routed [pan] or [zoom] for the left), except that the left stick
    held left or right in zoom mode emits none. *)
Theorem C5_edge_triggered :
  forall (c : Thumbstick.Controller) (hw : Thumbstick.Reads)
         (d : Thumbstick.Direction) (hws : list Thumbstick.Reads),
    let last := Thumbstick.lastDirection (Thumbstick.state c) in
    let zoomed := Thumbstick.zoomMode (Thumbstick.left (Thumbstick.state c)) in
    let evs := snd (Thumbstick.poll_try hw c) in
    let last' :=
      Thumbstick.lastDirection
        (Thumbstick.state (fst (Thumbstick.poll_try hw c))) in
    (filter Spec.is_left_stick evs <> [] ->
       exists dl, Spec.left_dir c hw = Some (Some dl)
                  /\ Thumbstick.last_left last <> Some dl) /\
    (filter Spec.is_right_stick evs <> [] ->
       exists dr, Spec.right_dir c hw = Some (Some dr)
                  /\ Thumbstick.last_right last <> Some dr) /\
    (forall e, In e evs ->
       Spec.is_left_stick e = true \/ Spec.is_right_stick e = true) /\
    (forall dl, Spec.left_dir c hw = Some dl ->
       Thumbstick.last_left last' = dl) /\
    (forall dr, Spec.right_dir c hw = Some dr ->
       Thumbstick.last_right last' = dr) /\
    (Spec.left_dir c hw = Some None ->
       Thumbstick.last_left last' = None
       /\ filter Spec.is_left_stick evs = []) /\
    (Spec.right_dir c hw = Some None ->
       Thumbstick.last_right last' = None
       /\ filter Spec.is_right_stick evs = []) /\
    (hws <> [] ->
     Thumbstick.last_left last <> Some d ->
     Forall (fun hw => Spec.left_dir c hw = Some (Some d)) hws ->
     let held := filter Spec.is_left_stick (snd (Spec.ticks c hws)) in
     held = Spec.left_routing zoomed d /\
     (zoomed = false \/ d = Thumbstick.Up \/ d = Thumbstick.Down ->
        List.length held = 1%nat) /\
     (zoomed = true -> d = Thumbstick.Left \/ d = Thumbstick.Right ->
        held = [])) /\
    (hws <> [] ->
     Thumbstick.last_right last <> Some d ->
     Forall (fun hw => Spec.right_dir c hw = Some (Some d)) hws ->
     filter Spec.is_right_stick (snd (Spec.ticks c hws))
       = [Thumbstick.navigate d]).
Proof.
  intros c hw d hws last zoomed evs last'. subst last zoomed evs last'.
  destruct (poll_try_events hw c) as [Hl [Hr Hk]].
  destruct (poll_try_last hw c) as [Ll Lr].
  split.
  { rewrite Hl. intros Hne.
    destruct (Spec.left_dir c hw) as [[dl | ] | ]; try congruence.
    exists dl. split; [reflexivity | ].
    destruct (Thumbstick.strict_neq (Some dl) _) eqn:E; [ | congruence].
    apply strict_neq_true in E. congruence. }
  split.
  { rewrite Hr. intros Hne.
    destruct (Spec.right_dir c hw) as [[dr | ] | ]; try congruence.
    exists dr. split; [reflexivity | ].
    destruct (Thumbstick.strict_neq (Some dr) _) eqn:E; [ | congruence].
    apply strict_neq_true in E. congruence. }
  split.
  { intros e He. apply orb_true_iff. apply Hk. exact He. }
  split; [exact Ll | split; [exact Lr | ] ].
  split.
  { intros H. split; [apply Ll; exact H | rewrite Hl, H; reflexivity]. }
  split.
  { intros H. split; [apply Lr; exact H | rewrite Hr, H; reflexivity]. }
  split.
  - intros Hne Hlast Hall. cbv zeta.
    rewrite (hold_left d c hws Hne Hlast Hall).
    split; [reflexivity | split].
    + unfold Spec.left_routing.
      intros [Hz | [Hd | Hd]]; rewrite ?Hz, ?Hd;
        destruct (Thumbstick.zoomMode _); reflexivity.
    + intros Hz [Hd | Hd]; rewrite Hz, Hd; reflexivity.
  - apply hold_right.
Qed.

(** Default configuration on a Pi, out of zoom mode: the left stick held up
    (0.5, 0.1) for three ticks from rest emits [pan up] once. *)
Lemma C5_edge_triggered_witness :
  let c := Spec.pi_controller Thumbstick.no_options in
  let hw := Spec.readings (1 # 2) (1 # 10) (1 # 2) (1 # 2) in
  let hws := [hw; hw; hw] in
  hws <> [] /\
  Thumbstick.last_left (Thumbstick.lastDirection (Thumbstick.state c))
    <> Some Thumbstick.Up /\
  Forall (fun hw => Spec.left_dir c hw = Some (Some Thumbstick.Up)) hws /\
  filter Spec.is_left_stick (snd (Spec.ticks c hws))
    = [Thumbstick.pan Thumbstick.Up].
Proof.
  intros c hw hws.
  assert (Hne : hws <> []) by discriminate.
  assert (Hlast : Thumbstick.last_left
                    (Thumbstick.lastDirection (Thumbstick.state c))
                  <> Some Thumbstick.Up) by (cbn; discriminate).
  assert (Hall : Forall
                   (fun hw => Spec.left_dir c hw = Some (Some Thumbstick.Up))
                   hws) by (repeat constructor).
  split; [exact Hne | split; [exact Hlast | split; [exact Hall | ] ] ].
  destruct (C5_edge_triggered c hw Thumbstick.Up hws)
    as [_ [_ [_ [_ [_ [_ [_ [H _]]]]]]]].
  destruct (H Hne Hlast Hall) as [Hheld _]. exact Hheld.
Defined.

(** ** The button debouncer *)

(** C3, as stated, fails: a press exactly 200 ms after the last accepted
    left click ([now - lastLeftClick = clickDebounce]) is not accepted: no
    event, and the timestamp stays. *)
Lemma C3_press_at_window_boundary_counterexample :
  let c := Spec.zoomed_controller in
  let now := 1200%Z in
  (now - Thumbstick.lastLeftClick c >= Thumbstick.clickDebounce c)%Z /\
  snd (Thumbstick.handleLeftButton now true c) = [] /\
  Thumbstick.lastLeftClick (fst (Thumbstick.handleLeftButton now true c))
    = 1000%Z /\
  snd (Thumbstick.handleRightButton 200 true
         (Spec.pi_controller Thumbstick.no_options)) = [].
Proof.
  cbv zeta. split; [vm_compute; discriminate | ].
  split; [reflexivity | split; reflexivity].
Qed.

(** C3, amended: a button edge is accepted (timestamp set to [now], click
    event emitted, and for the left button zoom mode toggled and reported)
    if and only if it is a press and [now - lastAccepted > clickDebounce],
    strictly; a press exactly at the boundary, and any release, emits
    nothing and leaves the timestamp and zoom mode as they were. *)
Theorem C3_debounce_strict :
  forall (c : Thumbstick.Controller) (now : Z) (pressed : bool),
    let l := Thumbstick.handleLeftButton now pressed c in
    let r := Thumbstick.handleRightButton now pressed c in
    let zoomed := Thumbstick.zoomMode (Thumbstick.left (Thumbstick.state c)) in
    let zoomed' :=
      Thumbstick.zoomMode (Thumbstick.left (Thumbstick.state (fst l))) in
    (snd l <> [] <->
       pressed = true
       /\ (now - Thumbstick.lastLeftClick c > Thumbstick.clickDebounce c)%Z) /\
    (snd l <> [] ->
       snd l = [Thumbstick.leftClick (negb zoomed)]
       /\ Thumbstick.lastLeftClick (fst l) = now
       /\ zoomed' = negb zoomed) /\
    (snd l = [] ->
       Thumbstick.lastLeftClick (fst l) = Thumbstick.lastLeftClick c
       /\ zoomed' = zoomed) /\
    (snd r <> [] <->
       pressed = true
       /\ (now - Thumbstick.lastRightClick c > Thumbstick.clickDebounce c)%Z)
    /\
    (snd r <> [] ->
       snd r = [Thumbstick.rightClick]
       /\ Thumbstick.lastRightClick (fst r) = now) /\
    (snd r = [] ->
       Thumbstick.lastRightClick (fst r) = Thumbstick.lastRightClick c) /\
    ((now - Thumbstick.lastLeftClick c = Thumbstick.clickDebounce c)%Z ->
       snd l = []) /\
    ((now - Thumbstick.lastRightClick c = Thumbstick.clickDebounce c)%Z ->
       snd r = []).
Proof.
  intros c now pressed l r zoomed zoomed'. subst l r zoomed zoomed'.
  unfold Thumbstick.handleLeftButton, Thumbstick.handleRightButton.
  destruct pressed; cbn [andb];
    destruct (now - Thumbstick.lastLeftClick c
              >? Thumbstick.clickDebounce c)%Z eqn:El;
    destruct (now - Thumbstick.lastRightClick c
              >? Thumbstick.clickDebounce c)%Z eqn:Er;
    cbn; rewrite ?Z.gtb_ltb, ?Z.ltb_lt, ?Z.ltb_ge in El, Er;
    repeat split; intros; try congruence; try lia;
    try (exfalso; intuition (congruence || lia)).
Qed.

(** A press 201 ms after the last accepted left click is accepted. *)
Lemma C3_debounce_strict_witness :
  let c := Spec.zoomed_controller in
  let l := Thumbstick.handleLeftButton 1201 true c in
  (1201 - Thumbstick.lastLeftClick c > Thumbstick.clickDebounce c)%Z /\
  snd l = [Thumbstick.leftClick false] /\
  Thumbstick.lastLeftClick (fst l) = 1201%Z.
Proof.
  intros c l.
  assert (Hgt : (1201 - Thumbstick.lastLeftClick c
                 > Thumbstick.clickDebounce c)%Z) by reflexivity.
  split; [exact Hgt | ].
  destruct (C3_debounce_strict c 1201 true) as [[_ Hacc] [Hev _]].
  destruct (Hev (Hacc (conj eq_refl Hgt))) as [He [Ht _]].
  split; [exact He | exact Ht].
Defined.

(** ** The constructor *)

Section Merging.

Import Thumbstick Spec.

Lemma or_Z_zero (v : option Z) (d : Z) :
  zero_Z v = true -> JS.or_Z v d = d.
Proof.
  destruct v as [n | ]; cbn; [ | discriminate].
  intros H. rewrite H. reflexivity.
Qed.

Lemma or_Q_zero (v : option Q) (d : Q) :
  zero_Q v = true -> JS.or_Q v d = d.
Proof.
  destruct v as [q | ]; cbn; [ | discriminate].
  intros H. rewrite H. reflexivity.
Qed.

(** A supplied value that is not 0 is kept. *)
Lemma or_Z_kept (n d : Z) : n <> 0%Z -> JS.or_Z (Some n) d = n.
Proof.
  intros H. cbn. destruct (n =? 0)%Z eqn:E; [ | reflexivity].
  apply Z.eqb_eq in E. contradiction.
Qed.

Lemma or_Q_kept (q d : Q) : ~ q == 0 -> JS.or_Q (Some q) d = q.
Proof.
  intros H. cbn. destruct (Qeq_bool q 0) eqn:E; [ | reflexivity].
  apply Qeq_bool_iff in E. contradiction.
Qed.

(** An absent field takes the default. *)
Lemma or_Z_absent (d : Z) : JS.or_Z None d = d.
Proof. reflexivity. Qed.

Lemma or_Q_absent (d : Q) : JS.or_Q None d = d.
Proof. reflexivity. Qed.

End Merging.

(** C10, as stated, fails: with [leftXChannel: 0] alone the fallback is the
    default 0 itself, so the resulting configuration is the requested
    one. *)
Lemma C10_leftXChannel_zero_counterexample :
  let o :=
    Thumbstick.mkRawOptions (Some 0%Z) None None None None None None None None
  in
  Spec.passes_zero o = true /\
  Thumbstick.merge_options o = Spec.requested o.
Proof. cbv zeta. split; reflexivity. Qed.

(** C10, amended: a field supplied as 0 takes that field's default
    (deadzone 0.15, threshold 0.3, pollInterval 50, leftYChannel 1,
    rightXChannel 2, rightYChannel 3, leftButtonPin 17, rightButtonPin 27,
    leftXChannel 0), so in every such field other than [leftXChannel] the
    resulting configuration differs from the requested one; for
    [leftXChannel] the default is 0 and the result is as requested. *)
Theorem C10_zero_falls_back_to_default :
  forall o : Thumbstick.RawOptions,
    let m := Thumbstick.merge_options o in
    let r := Spec.requested o in
    (Spec.zero_Q (Thumbstick.o_deadzone o) = true ->
       Thumbstick.deadzone m = 15 # 100
       /\ ~ Thumbstick.deadzone m == Thumbstick.deadzone r) /\
    (Spec.zero_Q (Thumbstick.o_threshold o) = true ->
       Thumbstick.threshold m = 3 # 10
       /\ ~ Thumbstick.threshold m == Thumbstick.threshold r) /\
    (Spec.zero_Z (Thumbstick.o_pollInterval o) = true ->
       Thumbstick.pollInterval m = 50%Z
       /\ Thumbstick.pollInterval m <> Thumbstick.pollInterval r) /\
    (Spec.zero_Z (Thumbstick.o_leftYChannel o) = true ->
       Thumbstick.leftYChannel m = 1%Z
       /\ Thumbstick.leftYChannel m <> Thumbstick.leftYChannel r) /\
    (Spec.zero_Z (Thumbstick.o_rightXChannel o) = true ->
       Thumbstick.rightXChannel m = 2%Z
       /\ Thumbstick.rightXChannel m <> Thumbstick.rightXChannel r) /\
    (Spec.zero_Z (Thumbstick.o_rightYChannel o) = true ->
       Thumbstick.rightYChannel m = 3%Z
       /\ Thumbstick.rightYChannel m <> Thumbstick.rightYChannel r) /\
    (Spec.zero_Z (Thumbstick.o_leftButtonPin o) = true ->
       Thumbstick.leftButtonPin m = 17%Z
       /\ Thumbstick.leftButtonPin m <> Thumbstick.leftButtonPin r) /\
    (Spec.zero_Z (Thumbstick.o_rightButtonPin o) = true ->
       Thumbstick.rightButtonPin m = 27%Z
       /\ Thumbstick.rightButtonPin m <> Thumbstick.rightButtonPin r) /\
    (Spec.zero_Z (Thumbstick.o_leftXChannel o) = true ->
       Thumbstick.leftXChannel m = 0%Z
       /\ Thumbstick.leftXChannel m = Thumbstick.leftXChannel r).
Proof.
  intros o m r. subst m r.
  unfold Thumbstick.merge_options, Spec.requested.
  cbn [Thumbstick.deadzone Thumbstick.threshold Thumbstick.pollInterval
       Thumbstick.leftXChannel Thumbstick.leftYChannel
       Thumbstick.rightXChannel Thumbstick.rightYChannel
       Thumbstick.leftButtonPin Thumbstick.rightButtonPin].
  repeat (apply conj); intros H;
    rewrite ?(or_Z_zero _ _ H), ?(or_Q_zero _ _ H);
    (split; [reflexivity | ]);
    match type of H with
    | Spec.zero_Q ?v = true =>
        destruct v as [q | ]; cbn in H |- *; [ | discriminate];
        apply Qeq_bool_iff in H; rewrite H; intros A; discriminate A
    | Spec.zero_Z ?v = true =>
        destruct v as [n | ]; cbn in H |- *; [ | discriminate];
        apply Z.eqb_eq in H; subst n; try reflexivity; discriminate
    end.
Qed.

(** [{ deadzone: 0, leftYChannel: 0 }]. *)
Lemma C10_zero_falls_back_to_default_witness :
  let o :=
    Thumbstick.mkRawOptions None (Some 0%Z) None None None None (Some 0) None
      None in
  Spec.zero_Q (Thumbstick.o_deadzone o) = true /\
  Spec.zero_Z (Thumbstick.o_leftYChannel o) = true /\
  Thumbstick.deadzone (Thumbstick.merge_options o) = 15 # 100 /\
  Thumbstick.leftYChannel (Thumbstick.merge_options o) = 1%Z.
Proof.
  intros o.
  assert (Hd : Spec.zero_Q (Thumbstick.o_deadzone o) = true) by reflexivity.
  assert (Hy : Spec.zero_Z (Thumbstick.o_leftYChannel o) = true)
    by reflexivity.
  split; [exact Hd | split; [exact Hy | ] ].
  destruct (C10_zero_falls_back_to_default o) as [D [_ [_ [Y _]]]].
  split; [exact (proj1 (D Hd)) | exact (proj1 (Y Hy))].
Defined.

(** C4, as stated, fails: [{ deadzone: 5 }] is an invalid options object,
    yet the constructor returns a controller that holds the deadzone 5 and
    that [start] sets running with its first poll under way. *)
Lemma C4_invalid_deadzone_accepted_counterexample :
  let o :=
    Thumbstick.mkRawOptions None None None None None None (Some 5) None None
  in
  Spec.invalid_options o /\
  exists c : Thumbstick.Controller,
    Thumbstick.constructor o = JS.Normal c /\
    Thumbstick.deadzone (Thumbstick.options c) = 5 /\
    Thumbstick.isRunning
      (EventLoop.ctrl (EventLoop.start (EventLoop.boot c))) = true /\
    EventLoop.in_flight (EventLoop.start (EventLoop.boot c)) = 1%nat.
Proof.
  cbv zeta. split.
  - left. cbn. intros [_ H]. lra.
  - eexists. split; [reflexivity | ].
    split; [reflexivity | split; reflexivity].
Qed.

(** C4, amended: construction never fails.  For every options object the
    constructor returns a controller whose configuration is the merge of
    the options with the defaults: a supplied deadzone, threshold or poll
    interval other than 0 is stored as it is, in range or not; and the
    controller can be started. *)
Theorem C4_constructor_accepts_every_options :
  forall o : Thumbstick.RawOptions,
    exists c : Thumbstick.Controller,
      Thumbstick.constructor o = JS.Normal c /\
      Thumbstick.options c = Thumbstick.merge_options o /\
      (forall q, Thumbstick.o_deadzone o = Some q -> ~ q == 0 ->
         Thumbstick.deadzone (Thumbstick.options c) = q) /\
      (forall q, Thumbstick.o_threshold o = Some q -> ~ q == 0 ->
         Thumbstick.threshold (Thumbstick.options c) = q) /\
      (forall n, Thumbstick.o_pollInterval o = Some n -> n <> 0%Z ->
         Thumbstick.pollInterval (Thumbstick.options c) = n) /\
      Thumbstick.isRunning
        (EventLoop.ctrl (EventLoop.start (EventLoop.boot c))) = true /\
      EventLoop.in_flight (EventLoop.start (EventLoop.boot c)) = 1%nat.
Proof.
  intros o. exists (Thumbstick.new_controller o).
  split; [reflexivity | split; [reflexivity | ] ].
  cbn [Thumbstick.new_controller Thumbstick.options Thumbstick.merge_options
       Thumbstick.deadzone Thumbstick.threshold Thumbstick.pollInterval].
  split; [intros q E Hq; rewrite E; apply or_Q_kept; exact Hq | ].
  split; [intros q E Hq; rewrite E; apply or_Q_kept; exact Hq | ].
  split; [intros n E Hn; rewrite E; apply or_Z_kept; exact Hn | ].
  split; reflexivity.
Qed.

(** [{ threshold: -1, pollInterval: -5 }]. *)
Lemma C4_constructor_accepts_every_options_witness :
  let o :=
    Thumbstick.mkRawOptions None None None None None None None (Some (-5)%Z)
      (Some (-(1))) in
  Spec.invalid_options o /\
  exists c : Thumbstick.Controller,
    Thumbstick.constructor o = JS.Normal c /\
    Thumbstick.threshold (Thumbstick.options c) = -(1) /\
    Thumbstick.pollInterval (Thumbstick.options c) = (-5)%Z.
Proof.
  intros o. split.
  - right. left. cbn. intros [H _]. lra.
  - destruct (C4_constructor_accepts_every_options o)
      as [c [Hc [_ [_ [Ht [Hp _]]]]]].
    exists c. split; [exact Hc | split].
    + apply Ht; [reflexivity | intros A; discriminate A].
    + apply Hp; [reflexivity | discriminate].
Defined.

(** ** The broadcaster *)

Section Broadcast.

Import Server.

Variable env : Sockets.
Variable payload : string.

Lemma deliver_all (r : Registry) :
  let effs := flat_map (deliver env payload) r in
  filter is_stringified effs = []
  /\ sent_clients effs = filter (accepts env) r
  /\ logged_clients effs = filter (fails env) r
  /\ forall c p, In (Sent c p) effs -> p = payload.
Proof.
  induction r as [ | c r [IH1 [IH2 [IH3 IH4]]]]; cbv zeta.
  - cbn. repeat split. intros c p [].
  - cbn [flat_map]. unfold sent_clients, logged_clients in *.
    rewrite filter_app, !flat_map_app, IH1, IH2, IH3.
    cbn [filter]. unfold deliver at 1 2 3 4.
    replace (accepts env c)
      with ((readyState env c =? 1)%Z && negb (send_throws env c))
      by reflexivity.
    replace (fails env c)
      with ((readyState env c =? 1)%Z && send_throws env c)
      by reflexivity.
    destruct (readyState env c =? 1)%Z; destruct (send_throws env c); cbn;
      (split; [reflexivity | split; [reflexivity | split; [reflexivity | ] ] ]);
      intros c' p H; try destruct H as [H | H];
      try discriminate H; try (injection H as _ H; symmetry; exact H);
      eapply IH4; exact H.
Qed.

End Broadcast.

(** C2, as stated, fails: with A and B registered and open and A's [send]
    throwing, the broadcast logs A's failure and still sends to B, but A
    stays in the registry and the next broadcast attempts A again. *)
Lemma C2_failing_subscriber_stays_counterexample :
  let A := 1%nat in
  let B := 2%nat in
  let env := Server.mkSockets (fun _ => 1%Z) (fun s => Nat.eqb s A) in
  let registry := Server.add B (Server.add A []) in
  let m := Server.to_message (Thumbstick.pan Thumbstick.Right) in
  let first := Server.broadcastToClients env registry m in
  let second := Server.broadcastToClients env (fst first) m in
  Server.logged_clients (snd first) = [A] /\
  Server.sent_clients (snd first) = [B] /\
  In A (fst first) /\
  Server.logged_clients (snd second) = [A].
Proof.
  cbv zeta. split; [reflexivity | split; [reflexivity | split] ].
  - left. reflexivity.
  - reflexivity.
Qed.

(** C2, amended: a broadcast serialises the message once; it sends that
    one serialisation to every registered subscriber whose channel is open
    and whose [send] does not throw, in registry order; a [send] that
    throws is caught and logged and the remaining subscribers are still
    served; and the registry is left as it was, so a failing subscriber stays
    registered (only its own close or error notification removes it). *)
Theorem C2_broadcast_tolerates_failures :
  forall (env : Server.Sockets) (registry : Server.Registry)
         (m : Server.Message),
    let res := Server.broadcastToClients env registry m in
    List.length (filter Server.is_stringified (snd res)) = 1%nat /\
    hd_error (snd res) = Some (Server.Stringified m) /\
    Server.sent_clients (snd res) = filter (Server.accepts env) registry /\
    Server.logged_clients (snd res) = filter (Server.fails env) registry /\
    (forall c p, In (Server.Sent c p) (snd res) -> p = Server.stringify m) /\
    fst res = registry.
Proof.
  intros env registry m res. subst res.
  unfold Server.broadcastToClients. cbn [fst snd].
  destruct (deliver_all env (Server.stringify m) registry)
    as [H1 [H2 [H3 H4]]].
  cbn [filter Server.is_stringified hd_error].
  rewrite H1. split; [reflexivity | split; [reflexivity | ] ].
  split; [exact H2 | split; [exact H3 | split; [ | reflexivity] ] ].
  intros c p [H | H]; [discriminate H | eapply H4; exact H].
Qed.

(** The serialisation of one event. *)
Example stringify_pan_right :
  Server.stringify (Server.to_message (Thumbstick.pan Thumbstick.Right)) =
    ("{" ++ Server.quoted "type" ++ ":" ++ Server.quoted "pan" ++ ","
         ++ Server.quoted "direction" ++ ":" ++ Server.quoted "right"
         ++ "}")%string.
Proof. reflexivity. Qed.

(** ** Mock mode *)

Section Mock.

Import Thumbstick EventLoop Spec.

Lemma read_all_mock (c : Controller) (hw : Reads) :
  channels c = None ->
  read_all c hw = Some (1 # 2, 1 # 2, 1 # 2, 1 # 2).
Proof. intros H. unfold read_all. rewrite H. reflexivity. Qed.

Lemma applyDeadzone_centre (o : Options) :
  0 < deadzone o -> applyDeadzone o (1 # 2) = 0.
Proof.
  intros H. unfold applyDeadzone.
  assert (E : JS.lt (Qabs (((1 # 2) - (1 # 2)) * 2)) (deadzone o) = true).
  { apply JS_lt_iff. change (Qabs (((1 # 2) - (1 # 2)) * 2)) with (0 # 4).
    lra. }
  rewrite E. reflexivity.
Qed.

Lemma getDirection_rest (o : Options) :
  0 < threshold o -> getDirection o 0 0 = None.
Proof.
  intros H. apply getDirection_none. change (Qabs 0) with 0. tauto.
Qed.

(** The effective deadzone and threshold are positive whenever the
    supplied ones are absent or in [0,1]: 0 itself falls back to the
    default. *)
Lemma or_Q_positive (v : option Q) (d : Q) :
  0 < d -> fraction_in_range v -> 0 < JS.or_Q v d.
Proof.
  intros Hd Hv. destruct v as [q | ]; cbn in *; [ | exact Hd].
  destruct (Qeq_bool q 0) eqn:E; [exact Hd | ].
  apply Qeq_bool_neq in E. destruct Hv as [H0 _].
  apply Qle_lteq in H0. destruct H0 as [H0 | H0]; [exact H0 | ].
  exfalso. apply E. symmetry. exact H0.
Qed.

Lemma mock_controller_at_rest (o : RawOptions) :
  fraction_in_range (o_deadzone o) ->
  fraction_in_range (o_threshold o) ->
  mock_at_rest (mock_controller o).
Proof.
  intros Hd Ht. unfold mock_at_rest. cbn.
  repeat split; try reflexivity; apply or_Q_positive; try assumption;
    reflexivity.
Qed.

(** In mock mode at rest a tick only rewrites the axes with zeros. *)
Lemma poll_try_mock (hw : Reads) (c : Controller) :
  mock_at_rest c ->
  poll_try hw c =
    (set_state (set_right_axes 0 0 (set_left_axes 0 0 (state c))) c, []).
Proof.
  intros [Hc [_ [_ [Hd [Ht Hl]]]]].
  rewrite (poll_try_read hw c _ _ _ _ (read_all_mock c hw Hc)).
  rewrite (applyDeadzone_centre _ Hd), (getDirection_rest _ Ht).
  unfold detect_left, detect_right. cbn. rewrite Hl. cbn. rewrite Hl.
  reflexivity.
Qed.

Lemma mock_at_rest_step (w : World) (i : Input) :
  mock_at_rest (ctrl w) ->
  mock_at_rest (ctrl (fst (step w i))) /\ snd (step w i) = [].
Proof.
  intros M. pose proof M as [Hc [Hlb [Hrb [Hd [Ht Hl]]]]].
  destruct i as [ | | t | hw | err now value | err now value]; cbn [step].
  - split; [ | reflexivity]. cbn [fst]. unfold start, poll_begin.
    destruct (isRunning (ctrl w)); [exact M | ].
    cbn. unfold mock_at_rest. cbn. tauto.
  - split; [ | reflexivity]. cbn [fst]. unfold stop.
    destruct (pollTimer (set_isRunning false (ctrl w)));
      unfold mock_at_rest; cbn; tauto.
  - destruct (existsb (is_timer t) (timers w)); cbn [fst snd];
      [ | tauto].
    split; [ | reflexivity]. unfold poll_begin. cbn [ctrl].
    destruct (negb (isRunning (ctrl w))); exact M.
  - destruct (in_flight w); cbn [fst snd]; [tauto | ].
    unfold poll_resume. rewrite (poll_try_mock hw (ctrl w) M). cbn [fst snd].
    split; [ | reflexivity]. unfold mock_at_rest. cbn. rewrite Hl. tauto.
  - rewrite Hlb. cbn [fst snd]. tauto.
  - rewrite Hrb. cbn [fst snd]. tauto.
Qed.

Lemma run_cons (w : World) (i : Input) (tr : list Input) :
  run w (i :: tr) =
    (fst (run (fst (step w i)) tr),
     snd (step w i) ++ snd (run (fst (step w i)) tr)).
Proof.
  cbn [run]. destruct (step w i) as [w1 e1]. cbn [fst snd].
  destruct (run w1 tr) as [w2 e2]. reflexivity.
Qed.

Lemma mock_at_rest_run (tr : list Input) :
  forall w,
    mock_at_rest (ctrl w) ->
    mock_at_rest (ctrl (fst (run w tr))) /\ snd (run w tr) = [].
Proof.
  induction tr as [ | i tr IH]; intros w M; [split; [exact M | reflexivity] | ].
  rewrite run_cons. cbn [fst snd].
  destruct (mock_at_rest_step w i M) as [M1 E1].
  destruct (IH _ M1) as [M2 E2].
  rewrite E1, E2. split; [exact M2 | reflexivity].
Qed.

End Mock.

(** C9, as stated, fails: the constructor keeps a threshold of -1, and
    then in mock mode the centre (0, 0) is no longer inside the dead square:
    the first tick classifies both sticks up and emits [pan up] and
    [navigate up].  With a deadzone of -0.5 the centre reading 0.5 does not
    even normalise to 0, and the first tick emits the same. *)
Lemma C9_mock_mode_out_of_range_counterexample :
  let o :=
    Thumbstick.mkRawOptions None None None None None None None None
      (Some (-(1))) in
  let o' :=
    Thumbstick.mkRawOptions None None None None None None (Some (-(1 # 2)))
      None None in
  let hw := Spec.readings (1 # 2) (1 # 2) (1 # 2) (1 # 2) in
  let tr := [EventLoop.CallStart; EventLoop.ReadsSettle hw] in
  Thumbstick.channels (Spec.mock_controller o) = None /\
  Thumbstick.getDirection (Thumbstick.options (Spec.mock_controller o)) 0 0
    = Some Thumbstick.Up /\
  snd (EventLoop.run (EventLoop.boot (Spec.mock_controller o)) tr)
    = [Thumbstick.pan Thumbstick.Up; Thumbstick.navigate Thumbstick.Up] /\
  Thumbstick.applyDeadzone (Thumbstick.options (Spec.mock_controller o'))
    (1 # 2) == -(1 # 3) /\
  snd (EventLoop.run (EventLoop.boot (Spec.mock_controller o')) tr)
    = [Thumbstick.pan Thumbstick.Up; Thumbstick.navigate Thumbstick.Up].
Proof.
  cbv zeta. split; [reflexivity | ].
  split; [vm_compute; reflexivity | ].
  split; [vm_compute; reflexivity | ].
  split; [vm_compute; reflexivity | vm_compute; reflexivity].
Qed.

(** C9, amended: in mock mode, when the configured deadzone and threshold
    are positive (the defaults are, and so is every supplied value that is
    absent or within [0,1], 0 falling back to the default), at every point
    of every run every read resolves to 0.5, 0.5 normalises to 0, (0, 0)
    classifies to no direction, and the run emits no event: no zoom, no
    pan, no navigate. *)
Theorem C9_mock_mode_is_silent :
  forall (o : Thumbstick.RawOptions) (tr : list EventLoop.Input),
    let m := Thumbstick.merge_options o in
    (Spec.fraction_in_range (Thumbstick.o_deadzone o) ->
       0 < Thumbstick.deadzone m) /\
    (Spec.fraction_in_range (Thumbstick.o_threshold o) ->
       0 < Thumbstick.threshold m) /\
    (0 < Thumbstick.deadzone m ->
     0 < Thumbstick.threshold m ->
     let res := EventLoop.run (EventLoop.boot (Spec.mock_controller o)) tr in
     let c := EventLoop.ctrl (fst res) in
     (forall hw : Thumbstick.Reads,
        Thumbstick.read_all c hw = Some (1 # 2, 1 # 2, 1 # 2, 1 # 2)) /\
     Thumbstick.applyDeadzone (Thumbstick.options c) (1 # 2) = 0 /\
     Thumbstick.getDirection (Thumbstick.options c) 0 0 = None /\
     snd res = [] /\
     Forall (fun e => EventLoop.is_stick_event e = false) (snd res)).
Proof.
  intros o tr m. subst m.
  split; [intros H; apply or_Q_positive; [reflexivity | exact H] | ].
  split; [intros H; apply or_Q_positive; [reflexivity | exact H] | ].
  intros Hd Ht res c. subst c res.
  assert (M0 : Spec.mock_at_rest (Spec.mock_controller o)).
  { unfold Spec.mock_at_rest. cbn.
    split; [reflexivity | split; [reflexivity | split; [reflexivity | ] ] ].
    split; [exact Hd | split; [exact Ht | reflexivity] ]. }
  destruct (mock_at_rest_run tr (EventLoop.boot (Spec.mock_controller o)) M0)
    as [M E].
  pose proof M as [Hc [_ [_ [Hdz [Hth _]]]]].
  split; [intros hw; apply read_all_mock; exact Hc | ].
  split; [apply applyDeadzone_centre; exact Hdz | ].
  split; [apply getDirection_rest; exact Hth | ].
  rewrite E. split; [reflexivity | constructor].
Qed.

(** Default options in mock mode: start, the first tick, its timeout, the
    second tick, stop. *)
Lemma C9_mock_mode_is_silent_witness :
  let o := Thumbstick.no_options in
  let m := Thumbstick.merge_options o in
  let hw := Spec.readings (9 # 10) (1 # 10) (9 # 10) (1 # 10) in
  let tr :=
    [EventLoop.CallStart; EventLoop.ReadsSettle hw; EventLoop.TimerFires 1%nat;
     EventLoop.ReadsSettle hw; EventLoop.CallStop] in
  Spec.fraction_in_range (Thumbstick.o_deadzone o) /\
  Spec.fraction_in_range (Thumbstick.o_threshold o) /\
  0 < Thumbstick.deadzone m /\
  0 < Thumbstick.threshold m /\
  snd (EventLoop.run (EventLoop.boot (Spec.mock_controller o)) tr) = [].
Proof.
  intros o m hw tr.
  destruct (C9_mock_mode_is_silent o tr) as [Hd [Ht H]].
  split; [exact I | split; [exact I | ] ].
  split; [exact (Hd I) | split; [exact (Ht I) | ] ].
  destruct (H (Hd I) (Ht I)) as [_ [_ [_ [E _]]]].
  exact E.
Defined.

(** ** Stopping the poll loop *)

Section Stopping.

Import Thumbstick EventLoop Spec.

Lemma handleLeftButton_frame (now : Z) (pressed : bool) (c : Controller) :
  isRunning (fst (handleLeftButton now pressed c)) = isRunning c
  /\ Forall (fun e => is_stick_event e = false)
       (snd (handleLeftButton now pressed c)).
Proof.
  unfold handleLeftButton.
  destruct (pressed && (now - lastLeftClick c >? clickDebounce c)%Z); cbn;
    split; try reflexivity; repeat constructor.
Qed.

Lemma handleRightButton_frame (now : Z) (pressed : bool) (c : Controller) :
  isRunning (fst (handleRightButton now pressed c)) = isRunning c
  /\ Forall (fun e => is_stick_event e = false)
       (snd (handleRightButton now pressed c)).
Proof.
  unfold handleRightButton.
  destruct (pressed && (now - lastRightClick c >? clickDebounce c)%Z); cbn;
    split; try reflexivity; repeat constructor.
Qed.

(** [stop] leaves the loop stopped, with no timer handle kept and the one
    it held no longer pending. *)
Lemma stop_cancels (w : World) :
  isRunning (ctrl (stop w)) = false
  /\ pollTimer (ctrl (stop w)) = None
  /\ in_flight (stop w) = in_flight w
  /\ next_timer (stop w) = next_timer w
  /\ forall t, pollTimer (ctrl w) = Some t ->
               existsb (is_timer t) (timers (stop w)) = false.
Proof.
  unfold stop. cbn [set_isRunning pollTimer].
  destruct (pollTimer (ctrl w)) as [t | ] eqn:E; cbn; rewrite ?E;
    (split; [reflexivity | ]); (split; [reflexivity | ]);
    (split; [reflexivity | ]); (split; [reflexivity | ]);
    intros t' H; [ | discriminate].
  injection H as <-.
  unfold clearTimeout. induction (timers w) as [ | p ts IH]; [reflexivity | ].
  cbn [filter]. destruct (is_timer t p) eqn:P; cbn; [exact IH | ].
  rewrite P, IH. reflexivity.
Qed.

(** A stopped loop with no suspended [poll] stays so under every input but
    [start], allocates no timer, and emits only clicks. *)
Lemma quiescent_step (w : World) (i : Input) :
  quiescent w ->
  is_start i = false ->
  quiescent (fst (step w i))
  /\ next_timer (fst (step w i)) = next_timer w
  /\ Forall (fun e => is_stick_event e = false) (snd (step w i)).
Proof.
  intros [Hr Hf] Hi. unfold quiescent.
  destruct i as [ | | t | hw | err now value | err now value]; cbn [step];
    try discriminate Hi.
  - cbn [fst snd]. destruct (stop_cancels w) as [A [_ [B [C _]]]].
    rewrite A, B, C. repeat split; [exact Hf | constructor].
  - destruct (existsb (is_timer t) (timers w)); cbn [fst snd];
      [ | repeat split; [exact Hr | exact Hf | constructor] ].
    unfold poll_begin. cbn [ctrl]. rewrite Hr. cbn.
    repeat split; [exact Hr | exact Hf | constructor].
  - rewrite Hf. cbn [fst snd].
    repeat split; [exact Hr | exact Hf | constructor].
  - destruct (leftButton (ctrl w)); [destruct err | ];
      cbn [fst snd with_ctrl];
      try (repeat split; [exact Hr | exact Hf | constructor]).
    destruct (handleLeftButton_frame now (value =? 0)%Z (ctrl w)) as [A B].
    cbn [ctrl in_flight next_timer]. rewrite A.
    repeat split; [exact Hr | exact Hf | exact B].
  - destruct (rightButton (ctrl w)); [destruct err | ];
      cbn [fst snd with_ctrl];
      try (repeat split; [exact Hr | exact Hf | constructor]).
    destruct (handleRightButton_frame now (value =? 0)%Z (ctrl w)) as [A B].
    cbn [ctrl in_flight next_timer]. rewrite A.
    repeat split; [exact Hr | exact Hf | exact B].
Qed.

Lemma quiescent_run (tr : list Input) :
  forall w,
    quiescent w ->
    Forall (fun i => is_start i = false) tr ->
    quiescent (fst (run w tr))
    /\ next_timer (fst (run w tr)) = next_timer w
    /\ Forall (fun e => is_stick_event e = false) (snd (run w tr)).
Proof.
  induction tr as [ | i tr IH]; intros w Q Hall.
  - cbn. repeat split; [apply Q | apply Q | constructor].
  - inversion Hall as [ | ? ? Hi Hrest]; subst.
    rewrite run_cons. cbn [fst snd].
    destruct (quiescent_step w i Q Hi) as [Q1 [N1 E1]].
    destruct (IH _ Q1 Hrest) as [Q2 [N2 E2]].
    split; [exact Q2 | split; [congruence | ] ].
    apply Forall_app. split; assumption.
Qed.

End Stopping.

(** C1, as stated, fails: on a Pi, after [start] and then [stop], a press
    of the left button is still answered with a [leftClick] event. *)
Lemma C1_click_after_stop_counterexample :
  let w := EventLoop.boot (Spec.pi_controller Thumbstick.no_options) in
  let stopped := fst (EventLoop.run w [EventLoop.CallStart; EventLoop.CallStop])
  in
  Thumbstick.isRunning (EventLoop.ctrl stopped) = false /\
  snd (EventLoop.run stopped [EventLoop.LeftInterrupt false 1000 0])
    = [Thumbstick.leftClick true].
Proof. cbv zeta. split; reflexivity. Qed.

(** The tick that is suspended when [stop] is called: once its reads
    settle it emits (here [pan right]) and schedules a timeout, [stop]
    having returned; the poll that timeout starts returns at its guard. *)
Lemma in_flight_tick_survives_stop :
  let w := EventLoop.boot (Spec.pi_controller Thumbstick.no_options) in
  let stopped := fst (EventLoop.run w [EventLoop.CallStart; EventLoop.CallStop])
  in
  let hw := Spec.readings (9 # 10) (1 # 2) (1 # 2) (1 # 2) in
  let settled := EventLoop.run stopped [EventLoop.ReadsSettle hw] in
  EventLoop.in_flight stopped = 1%nat /\
  snd settled = [Thumbstick.pan Thumbstick.Right] /\
  EventLoop.timers (fst settled) = [(1%nat, 50%Z)] /\
  EventLoop.run (fst settled) [EventLoop.TimerFires 1%nat]
    = (EventLoop.mkWorld (EventLoop.ctrl (fst settled)) [] 2%nat 0%nat, []).
Proof.
  cbv zeta. split; [reflexivity | ].
  split; [vm_compute; reflexivity | ].
  split; [vm_compute; reflexivity | vm_compute; reflexivity].
Qed.

(** C1, amended: when no poll tick is in flight, [stop] clears
    [isRunning] and [pollTimer] and cancels the timeout it held, and from
    then on, until [start] is called again, no poll tick runs (a poll
    started by a stray timeout returns at its guard: nothing is read, no
    timeout is scheduled) and no zoom, pan or navigate event is emitted.
    Button clicks are not gated by [stop]. *)
Theorem C1_stop_with_no_tick_in_flight :
  forall (w : EventLoop.World) (tr : list EventLoop.Input),
    EventLoop.in_flight w = 0%nat ->
    Forall (fun i => EventLoop.is_start i = false) tr ->
    let stopped := EventLoop.stop w in
    let res := EventLoop.run stopped tr in
    Thumbstick.pollTimer (EventLoop.ctrl stopped) = None /\
    (forall t, Thumbstick.pollTimer (EventLoop.ctrl w) = Some t ->
       existsb (EventLoop.is_timer t) (EventLoop.timers stopped) = false) /\
    Thumbstick.isRunning (EventLoop.ctrl (fst res)) = false /\
    EventLoop.in_flight (fst res) = 0%nat /\
    EventLoop.next_timer (fst res) = EventLoop.next_timer w /\
    Forall (fun e => EventLoop.is_stick_event e = false) (snd res).
Proof.
  intros w tr Hf Hall stopped res. subst stopped res.
  destruct (stop_cancels w) as [A [B [C [D E]]]].
  split; [exact B | split; [exact E | ] ].
  assert (Q : Spec.quiescent (EventLoop.stop w)).
  { split; [exact A | rewrite C; exact Hf]. }
  destruct (quiescent_run tr _ Q Hall) as [[Q1 Q2] [N Ev]].
  split; [exact Q1 | split; [exact Q2 | split; [congruence | exact Ev] ] ].
Qed.

(** On a Pi: start, the first tick completes with the left stick pushed
    right, then [stop]; the cancelled timeout, a press of the right button
    and stray reads follow. *)
Lemma C1_stop_with_no_tick_in_flight_witness :
  let w0 := EventLoop.boot (Spec.pi_controller Thumbstick.no_options) in
  let hw := Spec.readings (9 # 10) (1 # 2) (1 # 2) (1 # 2) in
  let w := fst (EventLoop.run w0 [EventLoop.CallStart; EventLoop.ReadsSettle hw])
  in
  let tr :=
    [EventLoop.TimerFires 1%nat; EventLoop.RightInterrupt false 5000 0;
     EventLoop.ReadsSettle hw] in
  EventLoop.in_flight w = 0%nat /\
  Forall (fun i => EventLoop.is_start i = false) tr /\
  Thumbstick.pollTimer (EventLoop.ctrl w) = Some 1%nat /\
  EventLoop.timers (EventLoop.stop w) = [] /\
  Forall (fun e => EventLoop.is_stick_event e = false)
    (snd (EventLoop.run (EventLoop.stop w) tr)).
Proof.
  intros w0 hw w tr.
  assert (Hf : EventLoop.in_flight w = 0%nat) by (vm_compute; reflexivity).
  assert (Hall : Forall (fun i => EventLoop.is_start i = false) tr)
    by (repeat constructor).
  split; [exact Hf | split; [exact Hall | ] ].
  split; [vm_compute; reflexivity | split; [vm_compute; reflexivity | ] ].
  destruct (C1_stop_with_no_tick_in_flight w tr Hf Hall)
    as [_ [_ [_ [_ [_ H]]]]].
  exact H.
Defined.

(** * Further properties of the controller *)

Section TickExtras.

Import Thumbstick EventLoop Spec.

(** Some read of the tick fails. *)
Lemma read_all_error (c : Controller) (hw : Reads) (ch : Channels) :
  channels c = Some ch ->
  hw_leftX hw = ReadError \/ hw_leftY hw = ReadError
  \/ hw_rightX hw = ReadError \/ hw_rightY hw = ReadError ->
  read_all c hw = None.
Proof.
  intros Hc H. unfold read_all. rewrite Hc. cbn.
  destruct (hw_leftX hw), (hw_leftY hw), (hw_rightX hw), (hw_rightY hw);
    try reflexivity; destruct H as [H | [H | [H | H]]]; discriminate H.
Qed.

End TickExtras.

(** X1: with the channels open, a tick one of whose reads fails emits
    nothing and leaves axes, [lastDirection] and everything else of the
    controller as they were; the loop still schedules its next timeout, at
    the configured interval, and records it in [pollTimer]. *)
Theorem poll_read_error_skips_tick :
  forall (w : EventLoop.World) (hw : Thumbstick.Reads)
         (ch : Thumbstick.Channels),
    Thumbstick.channels (EventLoop.ctrl w) = Some ch ->
    Thumbstick.hw_leftX hw = Thumbstick.ReadError
    \/ Thumbstick.hw_leftY hw = Thumbstick.ReadError
    \/ Thumbstick.hw_rightX hw = Thumbstick.ReadError
    \/ Thumbstick.hw_rightY hw = Thumbstick.ReadError ->
    let t := EventLoop.next_timer w in
    EventLoop.poll_resume hw w =
      (EventLoop.mkWorld
         (Thumbstick.set_pollTimer (Some t) (EventLoop.ctrl w))
         (EventLoop.timers w
            ++ [(t, Thumbstick.pollInterval
                      (Thumbstick.options (EventLoop.ctrl w)))])
         (S t) (pred (EventLoop.in_flight w)),
       []).
Proof.
  intros w hw ch Hc Herr t. subst t. unfold EventLoop.poll_resume.
  rewrite (poll_try_failed hw _ (read_all_error _ hw ch Hc Herr)).
  reflexivity.
Qed.

(** On a Pi, the first tick with the right stick's Y read failing. *)
Lemma poll_read_error_skips_tick_witness :
  let w :=
    EventLoop.start (EventLoop.boot (Spec.pi_controller Thumbstick.no_options))
  in
  let hw :=
    Thumbstick.mkReads (Thumbstick.Reading (9 # 10))
      (Thumbstick.Reading (1 # 2)) (Thumbstick.Reading (1 # 2))
      Thumbstick.ReadError in
  Thumbstick.channels (EventLoop.ctrl w)
    = Some (Thumbstick.mkChannels 0%Z 1%Z 2%Z 3%Z) /\
  Thumbstick.hw_rightY hw = Thumbstick.ReadError /\
  snd (EventLoop.poll_resume hw w) = [] /\
  EventLoop.timers (fst (EventLoop.poll_resume hw w)) = [(1%nat, 50%Z)].
Proof.
  intros w hw.
  split; [reflexivity | split; [reflexivity | ] ].
  rewrite (poll_read_error_skips_tick w hw
             (Thumbstick.mkChannels 0%Z 1%Z 2%Z 3%Z) eq_refl
             (or_intror (or_intror (or_intror eq_refl)))).
  split; reflexivity.
Defined.

(** X2: a tick emits at most one event for the left stick and at most one
    for the right stick, the left one first, and nothing else. *)
Theorem tick_emits_at_most_one_per_stick :
  forall (c : Thumbstick.Controller) (hw : Thumbstick.Reads),
    exists evl evr : list Thumbstick.Event,
      snd (Thumbstick.poll_try hw c) = evl ++ evr
      /\ (List.length evl <= 1)%nat /\ (List.length evr <= 1)%nat
      /\ Forall (fun e => Spec.is_left_stick e = true) evl
      /\ Forall (fun e => Spec.is_right_stick e = true) evr.
Proof.
  intros c hw.
  destruct (Thumbstick.read_all c hw) as [[[[lx ly] rx] ry] | ] eqn:H.
  - rewrite (poll_try_read hw c lx ly rx ry H). cbn [snd].
    eexists. eexists. split; [reflexivity | ].
    rewrite detect_left_events, detect_right_events.
    split; [ | split; [ | split] ].
    + destruct (Thumbstick.strict_neq _ _); [ | cbn; lia].
      destruct (Thumbstick.getDirection _ _ _) as [d | ]; [ | cbn; lia].
      unfold Spec.left_routing.
      destruct (Thumbstick.zoomMode _), d; cbn; lia.
    + destruct (Thumbstick.strict_neq _ _); [ | cbn; lia].
      destruct (Thumbstick.getDirection _ _ _); cbn; lia.
    + destruct (Thumbstick.strict_neq _ _); [ | constructor].
      destruct (Thumbstick.getDirection _ _ _) as [d | ]; [ | constructor].
      unfold Spec.left_routing.
      destruct (Thumbstick.zoomMode _), d; repeat constructor.
    + destruct (Thumbstick.strict_neq _ _); [ | constructor].
      destruct (Thumbstick.getDirection _ _ _); repeat constructor.
  - rewrite (poll_try_failed hw c H). exists [], [].
    cbn. repeat split; try lia; constructor.
Qed.

(** ** Symmetries of the two pure functions *)

Section Symmetry.

Import Thumbstick Spec Geometry.

Variable o : Options.

Lemma scale_eq (a b : Q) :
  0 <= deadzone o < 1 ->
  a * (1 - deadzone o) == b * (1 - deadzone o) -> a == b.
Proof.
  intros Hd H. apply Qle_antisym; apply (scale_le o Hd); rewrite H; lra.
Qed.

Lemma centered_mirrored (r : Q) : centered (mirrored r) == - centered r.
Proof. unfold centered, mirrored. lra. Qed.

End Symmetry.

(** X3: for a deadzone in [0,1), [applyDeadzone] is odd about the centre:
    the reading mirrored about 0.5 normalises to the negated value. *)
Theorem applyDeadzone_odd_about_centre :
  forall (o : Thumbstick.Options) (r : Q),
    0 <= Thumbstick.deadzone o < 1 ->
    Thumbstick.applyDeadzone o (Geometry.mirrored r)
      == - Thumbstick.applyDeadzone o r.
Proof.
  intros o r Hd. apply (scale_eq o _ _ Hd).
  pose proof (centered_mirrored r) as Hm.
  destruct (applyDeadzone_pieces o Hd r)
    as [[? E] | [[? [? E]] | [? [? E]]]];
    destruct (applyDeadzone_pieces o Hd (Geometry.mirrored r))
      as [[? E'] | [[? [? E']] | [? [? E']]]];
    rewrite ?E'; try rewrite E; lra.
Qed.

(** Default deadzone, readings 0.9 and 0.1. *)
Lemma applyDeadzone_odd_about_centre_witness :
  let o := Thumbstick.merge_options Thumbstick.no_options in
  0 <= Thumbstick.deadzone o < 1 /\
  Thumbstick.applyDeadzone o (Geometry.mirrored (9 # 10))
    == - Thumbstick.applyDeadzone o (9 # 10).
Proof.
  intros o.
  assert (Hd : 0 <= Thumbstick.deadzone o < 1)
    by (split; [discriminate | reflexivity]).
  split; [exact Hd | apply applyDeadzone_odd_about_centre; exact Hd].
Defined.

(** X5: with a positive threshold the classifier is symmetric about the
    centre: negating both axes gives the opposite direction, and no
    direction stays no direction. *)
Theorem getDirection_opposite :
  forall (o : Thumbstick.Options) (x y : Q),
    0 < Thumbstick.threshold o ->
    Thumbstick.getDirection o (- x) (- y)
      = option_map Geometry.opposite (Thumbstick.getDirection o x y).
Proof.
  intros o x y Ht. unfold Thumbstick.getDirection.
  assert (Ax : Qabs (- x) == Qabs x) by apply Qabs_opp.
  assert (Ay : Qabs (- y) == Qabs y) by apply Qabs_opp.
  destruct (JS.lt (Qabs (- x)) (Thumbstick.threshold o)) eqn:X';
    destruct (JS.lt (Qabs (- y)) (Thumbstick.threshold o)) eqn:Y';
    destruct (JS.lt (Qabs x) (Thumbstick.threshold o)) eqn:X;
    destruct (JS.lt (Qabs y) (Thumbstick.threshold o)) eqn:Y;
    js_cmp; try (exfalso; lra); cbn [andb option_map];
    try reflexivity;
    destruct (JS.gt (Qabs (- x)) (Qabs (- y))) eqn:G';
    destruct (JS.gt (Qabs x) (Qabs y)) eqn:G;
    js_cmp; try (exfalso; lra);
    destruct (JS.gt (- x) 0) eqn:Sx'; destruct (JS.gt x 0) eqn:Sx;
    destruct (JS.gt (- y) 0) eqn:Sy'; destruct (JS.gt y 0) eqn:Sy;
    js_cmp; try reflexivity; exfalso;
    destruct (Qabs_cases x) as [[? ?] | [? ?]];
    destruct (Qabs_cases y) as [[? ?] | [? ?]]; lra.
Qed.

(** Default threshold, the stick at (0.8, -0.2) and at (-0.8, 0.2). *)
Lemma getDirection_opposite_witness :
  let o := Thumbstick.merge_options Thumbstick.no_options in
  0 < Thumbstick.threshold o /\
  Thumbstick.getDirection o (- (8 # 10)) (- - (2 # 10))
    = Some Thumbstick.Left.
Proof.
  intros o.
  assert (Ht : 0 < Thumbstick.threshold o) by reflexivity.
  split; [exact Ht | ].
  rewrite (getDirection_opposite o (8 # 10) (- (2 # 10)) Ht). reflexivity.
Defined.

(** ** Bursts of button edges *)

Section Bursts.

Import Thumbstick Lifecycle.

Lemma left_edges_cons (c : Controller) (now : Z) (pressed : bool)
    (edges : list (Z * bool)) :
  left_edges c ((now, pressed) :: edges) =
    (fst (left_edges (fst (handleLeftButton now pressed c)) edges),
     snd (handleLeftButton now pressed c)
       ++ snd (left_edges (fst (handleLeftButton now pressed c)) edges)).
Proof.
  cbn [left_edges]. destruct (handleLeftButton now pressed c) as [c1 e1].
  cbn [fst snd]. destruct (left_edges c1 edges) as [c2 e2]. reflexivity.
Qed.

(** An edge inside the window is dropped: only [button] follows it. *)
Lemma handleLeftButton_inside (c : Controller) (now : Z) (pressed : bool) :
  (now - lastLeftClick c <= clickDebounce c)%Z ->
  handleLeftButton now pressed c
    = (set_state (set_left_button pressed (state c)) c, []).
Proof.
  intros H. unfold handleLeftButton.
  assert (E : (now - lastLeftClick c >? clickDebounce c)%Z = false).
  { rewrite Z.gtb_ltb. apply Z.ltb_ge. exact H. }
  rewrite E, andb_false_r. reflexivity.
Qed.

Lemma left_edges_inside (edges : list (Z * bool)) :
  forall c,
    Forall (fun e => (fst e - lastLeftClick c <= clickDebounce c)%Z) edges ->
    snd (left_edges c edges) = []
    /\ zoomMode (left (state (fst (left_edges c edges))))
       = zoomMode (left (state c))
    /\ lastLeftClick (fst (left_edges c edges)) = lastLeftClick c.
Proof.
  induction edges as [ | [now pressed] edges IH]; intros c Hall.
  - cbn. repeat split.
  - inversion Hall as [ | ? ? Hin Hrest]; subst. cbn [fst] in Hin.
    rewrite left_edges_cons, (handleLeftButton_inside c now pressed Hin).
    cbn [fst snd app].
    destruct (IH (set_state (set_left_button pressed (state c)) c) Hrest)
      as [E [Z T]].
    rewrite E, Z, T. repeat split.
Qed.

End Bursts.

(** X6: a burst of left-button edges that opens with an accepted press and
    whose other edges, presses or releases, all come no later than the
    debounce window after it yields exactly one [leftClick] and one toggle of
    zoom mode; the timestamp stays that of the first press. *)
Theorem left_button_burst_clicks_once :
  forall (c : Thumbstick.Controller) (t1 : Z) (edges : list (Z * bool)),
    (t1 - Thumbstick.lastLeftClick c > Thumbstick.clickDebounce c)%Z ->
    Forall (fun e => (fst e - t1 <= Thumbstick.clickDebounce c)%Z) edges ->
    let zoomed := Thumbstick.zoomMode (Thumbstick.left (Thumbstick.state c)) in
    let res := Lifecycle.left_edges c ((t1, true) :: edges) in
    snd res = [Thumbstick.leftClick (negb zoomed)] /\
    Thumbstick.zoomMode (Thumbstick.left (Thumbstick.state (fst res)))
      = negb zoomed /\
    Thumbstick.lastLeftClick (fst res) = t1.
Proof.
  intros c t1 edges Hacc Hall zoomed res. subst zoomed res.
  rewrite left_edges_cons.
  assert (E : Thumbstick.handleLeftButton t1 true c =
              (Thumbstick.set_state
                 (Thumbstick.set_left_button true
                    (Thumbstick.set_zoomMode
                       (negb (Thumbstick.zoomMode
                                (Thumbstick.left (Thumbstick.state c))))
                       (Thumbstick.state c)))
                 (Thumbstick.set_lastLeftClick t1 c),
               [Thumbstick.leftClick
                  (negb (Thumbstick.zoomMode
                           (Thumbstick.left (Thumbstick.state c))))])).
  { unfold Thumbstick.handleLeftButton.
    assert (G : (t1 - Thumbstick.lastLeftClick c
                 >? Thumbstick.clickDebounce c)%Z = true).
    { rewrite Z.gtb_ltb. apply Z.ltb_lt. lia. }
    rewrite G. reflexivity. }
  rewrite E. cbn [fst snd].
  match goal with
  | |- context [Lifecycle.left_edges ?c1 edges] =>
      destruct (left_edges_inside edges c1) as [A [B C]]; [exact Hall | ]
  end.
  rewrite A, B, C. repeat split.
Qed.

(** After a press at 5000, a release at 5080 and a bounce at 5200. *)
Lemma left_button_burst_clicks_once_witness :
  let c := Spec.pi_controller Thumbstick.no_options in
  let edges := [(5080%Z, false); (5200%Z, true)] in
  (5000 - Thumbstick.lastLeftClick c > Thumbstick.clickDebounce c)%Z /\
  Forall (fun e => (fst e - 5000 <= Thumbstick.clickDebounce c)%Z) edges /\
  snd (Lifecycle.left_edges c ((5000%Z, true) :: edges))
    = [Thumbstick.leftClick true].
Proof.
  intros c edges.
  assert (Hacc : (5000 - Thumbstick.lastLeftClick c
                  > Thumbstick.clickDebounce c)%Z) by reflexivity.
  assert (Hall : Forall
                   (fun e => (fst e - 5000 <= Thumbstick.clickDebounce c)%Z)
                   edges).
  { repeat constructor; cbn; discriminate. }
  split; [exact Hacc | split; [exact Hall | ] ].
  destruct (left_button_burst_clicks_once c 5000 edges Hacc Hall)
    as [H _].
  exact H.
Defined.

(** X7: the two buttons are independent: the handlers of the left and of
    the right button commute, and each emits what it would have emitted
    without the other. *)
Theorem button_handlers_commute :
  forall (c : Thumbstick.Controller) (nl nr : Z) (pl pr : bool),
    let l := Thumbstick.handleLeftButton nl pl in
    let r := Thumbstick.handleRightButton nr pr in
    fst (r (fst (l c))) = fst (l (fst (r c))) /\
    snd (r (fst (l c))) = snd (r c) /\
    snd (l (fst (r c))) = snd (l c).
Proof.
  intros c nl nr pl pr l r. subst l r.
  unfold Thumbstick.handleLeftButton, Thumbstick.handleRightButton.
  destruct (pl && (nl - Thumbstick.lastLeftClick c
                   >? Thumbstick.clickDebounce c)%Z) eqn:L;
    destruct (pr && (nr - Thumbstick.lastRightClick c
                     >? Thumbstick.clickDebounce c)%Z) eqn:R;
    cbn; rewrite ?L, ?R; cbn; repeat split.
Qed.

(** ** Invariants of every run *)

Section RunInvariants.

Import Thumbstick EventLoop Spec Lifecycle.

Lemma same_setup_refl (c : Controller) : same_setup c c.
Proof. unfold same_setup. tauto. Qed.

Lemma same_setup_trans (a b c : Controller) :
  same_setup a b -> same_setup b c -> same_setup a c.
Proof. unfold same_setup. intuition congruence. Qed.

Lemma poll_try_setup (hw : Reads) (c : Controller) :
  same_setup c (fst (poll_try hw c))
  /\ isRunning (fst (poll_try hw c)) = isRunning c
  /\ pollTimer (fst (poll_try hw c)) = pollTimer c
  /\ zoomMode (left (state (fst (poll_try hw c))))
     = zoomMode (left (state c)).
Proof.
  rewrite poll_try_ctrl. unfold same_setup.
  destruct (read_all c hw) as [[[[lx ly] rx] ry] | ]; cbn; tauto.
Qed.

Lemma handleLeftButton_setup (now : Z) (pressed : bool) (c : Controller) :
  same_setup c (fst (handleLeftButton now pressed c))
  /\ isRunning (fst (handleLeftButton now pressed c)) = isRunning c
  /\ pollTimer (fst (handleLeftButton now pressed c)) = pollTimer c
  /\ zoomMode (left (state (fst (handleLeftButton now pressed c))))
     = zoom_reported (snd (handleLeftButton now pressed c))
         (zoomMode (left (state c))).
Proof.
  unfold handleLeftButton, same_setup.
  destruct (pressed && (now - lastLeftClick c >? clickDebounce c)%Z); cbn;
    tauto.
Qed.

Lemma handleRightButton_setup (now : Z) (pressed : bool) (c : Controller) :
  same_setup c (fst (handleRightButton now pressed c))
  /\ isRunning (fst (handleRightButton now pressed c)) = isRunning c
  /\ pollTimer (fst (handleRightButton now pressed c)) = pollTimer c
  /\ zoomMode (left (state (fst (handleRightButton now pressed c))))
     = zoom_reported (snd (handleRightButton now pressed c))
         (zoomMode (left (state c))).
Proof.
  unfold handleRightButton, same_setup.
  destruct (pressed && (now - lastRightClick c >? clickDebounce c)%Z); cbn;
    tauto.
Qed.

(** Stick events report no zoom mode. *)
Lemma zoom_reported_sticks (evs : list Event) (z : bool) :
  (forall e, In e evs -> is_left_stick e || is_right_stick e = true) ->
  zoom_reported evs z = z.
Proof.
  unfold zoom_reported. revert z.
  induction evs as [ | e evs IH]; intros z H; [reflexivity | ].
  cbn [fold_left]. rewrite IH.
  - specialize (H e (or_introl eq_refl)). destruct e; try reflexivity;
      discriminate H.
  - intros e' He'. apply H. right. exact He'.
Qed.

Lemma step_setup (w : World) (i : Input) :
  same_setup (ctrl w) (ctrl (fst (step w i)))
  /\ zoomMode (left (state (ctrl (fst (step w i)))))
     = zoom_reported (snd (step w i)) (zoomMode (left (state (ctrl w)))).
Proof.
  destruct i as [ | | t | hw | err now value | err now value]; cbn [step].
  - cbn [fst snd]. unfold start, poll_begin.
    destruct (isRunning (ctrl w)); cbn; unfold same_setup; cbn; tauto.
  - cbn [fst snd]. unfold stop.
    destruct (pollTimer (set_isRunning false (ctrl w))); cbn;
      unfold same_setup; cbn; tauto.
  - destruct (existsb (is_timer t) (timers w)); cbn [fst snd];
      [ | split; [apply same_setup_refl | reflexivity] ].
    unfold poll_begin. cbn [ctrl].
    destruct (negb (isRunning (ctrl w))); cbn;
      (split; [apply same_setup_refl | reflexivity]).
  - destruct (in_flight w); cbn [fst snd];
      [split; [apply same_setup_refl | reflexivity] | ].
    unfold poll_resume.
    destruct (poll_try_setup hw (ctrl w)) as [S [_ [_ Z]]].
    destruct (poll_try_events hw (ctrl w)) as [_ [_ K]].
    destruct (poll_try hw (ctrl w)) as [c evs]. cbn [fst snd] in *.
    rewrite (zoom_reported_sticks evs _ K). cbn.
    split; [ | exact Z]. unfold same_setup in *. cbn. exact S.
  - destruct (leftButton (ctrl w)); [destruct err | ]; cbn [fst snd];
      try (split; [apply same_setup_refl | reflexivity]).
    unfold with_ctrl. cbn [fst snd ctrl].
    destruct (handleLeftButton_setup now (value =? 0)%Z (ctrl w))
      as [S [_ [_ Z]]].
    split; assumption.
  - destruct (rightButton (ctrl w)); [destruct err | ]; cbn [fst snd];
      try (split; [apply same_setup_refl | reflexivity]).
    unfold with_ctrl. cbn [fst snd ctrl].
    destruct (handleRightButton_setup now (value =? 0)%Z (ctrl w))
      as [S [_ [_ Z]]].
    split; assumption.
Qed.

Lemma zoom_reported_app (a b : list Event) (z : bool) :
  zoom_reported (a ++ b) z = zoom_reported b (zoom_reported a z).
Proof. apply fold_left_app. Qed.

Lemma run_setup (tr : list Input) :
  forall w,
    same_setup (ctrl w) (ctrl (fst (run w tr)))
    /\ zoomMode (left (state (ctrl (fst (run w tr)))))
       = zoom_reported (snd (run w tr)) (zoomMode (left (state (ctrl w)))).
Proof.
  induction tr as [ | i tr IH]; intros w.
  - cbn. split; [apply same_setup_refl | reflexivity].
  - rewrite run_cons. cbn [fst snd].
    destruct (step_setup w i) as [S1 Z1].
    destruct (IH (fst (step w i))) as [S2 Z2].
    split; [exact (same_setup_trans _ _ _ S1 S2) | ].
    rewrite zoom_reported_app, <- Z1. exact Z2.
Qed.

Lemma run_keeps_setup (tr : list Input) (w : World) :
  same_setup (ctrl w) (ctrl (fst (run w tr))).
Proof. exact (proj1 (run_setup tr w)). Qed.

End RunInvariants.

(** X8: over every run, zoom mode is what the last [leftClick] event
    reported, and what it was at the start when no [leftClick] was emitted:
    it changes with an accepted left click and with nothing else. *)
Theorem zoomMode_follows_leftClick :
  forall (w : EventLoop.World) (tr : list EventLoop.Input),
    let res := EventLoop.run w tr in
    Thumbstick.zoomMode
      (Thumbstick.left (Thumbstick.state (EventLoop.ctrl (fst res))))
    = Lifecycle.zoom_reported (snd res)
        (Thumbstick.zoomMode
           (Thumbstick.left (Thumbstick.state (EventLoop.ctrl w)))).
Proof. intros w tr res. subst res. apply run_setup. Qed.

(** X9: over every run the configuration ([options], the debounce window)
    and the hardware handles ([channels], the two buttons) stay as the
    constructor and [init] left them. *)
Theorem run_keeps_configuration :
  forall (w : EventLoop.World) (tr : list EventLoop.Input),
    let c := EventLoop.ctrl w in
    let c' := EventLoop.ctrl (fst (EventLoop.run w tr)) in
    Thumbstick.options c' = Thumbstick.options c /\
    Thumbstick.clickDebounce c' = Thumbstick.clickDebounce c /\
    Thumbstick.channels c' = Thumbstick.channels c /\
    Thumbstick.leftButton c' = Thumbstick.leftButton c /\
    Thumbstick.rightButton c' = Thumbstick.rightButton c.
Proof.
  intros w tr c c'. subst c c'.
  destruct (run_setup tr w) as [[A [B [C [D E]]]] _]. tauto.
Qed.

(** ** One poll loop at a time *)

Section OneLoop.

Import Thumbstick EventLoop Spec Lifecycle.

Lemma clearTimeout_single (t : TimerId) (p : TimerId * Z) :
  clearTimeout t [p] = if is_timer t p then [] else [p].
Proof. cbn. destruct (is_timer t p); reflexivity. Qed.

(** The three regular states are closed under every input but [stop]. *)
Lemma one_loop_step (w : World) (i : Input) :
  one_loop w -> is_stop i = false -> one_loop (fst (step w i)).
Proof.
  intros H Hi.
  destruct i as [ | | t | hw | err now value | err now value]; cbn [step];
    try discriminate Hi; cbn [fst].
  - unfold start. destruct (isRunning (ctrl w)) eqn:R; [exact H | ].
    destruct H as [[_ [F T]] | [[R' _] | [R' _]]]; try congruence.
    unfold poll_begin. cbn. right. left. cbn. rewrite F, T. repeat split.
  - destruct H as [[R [F T]] | [[R [F T]] | [R [F [t0 [T P]]]]]].
    + rewrite T. cbn. left. tauto.
    + rewrite T. cbn. right. left. tauto.
    + rewrite T, clearTimeout_single. cbn [existsb]. rewrite orb_false_r.
      destruct (is_timer t (t0, pollInterval (options (ctrl w)))) eqn:E;
        cbn [fst].
      * unfold poll_begin. cbn [ctrl]. rewrite R. cbn [negb].
        right. left. cbn. rewrite F. repeat split. exact R.
      * right. right. repeat split; try assumption.
        exists t0. split; assumption.
  - destruct H as [[R [F T]] | [[R [F T]] | [R [F T]]]].
    + rewrite F. cbn. left. tauto.
    + rewrite F. unfold poll_resume.
      destruct (poll_try_setup hw (ctrl w)) as [[O _] [R' _]].
      destruct (poll_try hw (ctrl w)) as [c evs]. cbn [fst snd] in *.
      right. right. cbn. rewrite R', R, T, O, F.
      split; [reflexivity | split; [reflexivity | ] ].
      exists (next_timer w). split; reflexivity.
    + rewrite F. cbn. right. right. tauto.
  - destruct (leftButton (ctrl w)); [destruct err | ]; cbn [fst];
      try exact H.
    unfold with_ctrl. cbn [fst].
    destruct (handleLeftButton_setup now (value =? 0)%Z (ctrl w))
      as [[O _] [R [P _]]].
    unfold one_loop in *. cbn. rewrite R, P, O. exact H.
  - destruct (rightButton (ctrl w)); [destruct err | ]; cbn [fst];
      try exact H.
    unfold with_ctrl. cbn [fst].
    destruct (handleRightButton_setup now (value =? 0)%Z (ctrl w))
      as [[O _] [R [P _]]].
    unfold one_loop in *. cbn. rewrite R, P, O. exact H.
Qed.

End OneLoop.

Section WindingDown.

Import Thumbstick EventLoop Spec Lifecycle.

Lemma is_timer_self (t : TimerId) (d : Z) : is_timer t (t, d) = true.
Proof. unfold is_timer. cbn. apply Nat.eqb_refl. Qed.

Lemma stop_world (w : World) :
  isRunning (ctrl (stop w)) = false
  /\ in_flight (stop w) = in_flight w
  /\ timers (stop w) =
       match pollTimer (ctrl w) with
       | Some t => clearTimeout t (timers w)
       | None => timers w
       end.
Proof.
  unfold stop. cbn [set_isRunning pollTimer].
  destruct (pollTimer (ctrl w)); cbn; repeat split.
Qed.

(** Once stopped, a loop that was regular or winding down stays regular
    or winding down under every input but [start]. *)
Lemma settled_step (w : World) (i : Input) :
  one_loop w \/ winding_down w ->
  is_start i = false ->
  one_loop (fst (step w i)) \/ winding_down (fst (step w i)).
Proof.
  intros H Hi. destruct (is_stop i) eqn:Hs.
  - destruct i; try discriminate Hs. cbn [step fst].
    destruct (stop_world w) as [R [F T]].
    destruct H as [[[_ [F0 T0]] | [[_ [F0 T0]] | [_ [F0 [t [T0 P]]]]]]
                   | [_ [[F0 T0] | [F0 [p T0]]]]].
    + left. left. rewrite R, F, T, T0, F0.
      destruct (pollTimer (ctrl w)); repeat split.
    + right. split; [exact R | left]. rewrite F, T, T0, F0.
      destruct (pollTimer (ctrl w)); split; reflexivity.
    + left. left. rewrite R, F, T, T0, F0, P, clearTimeout_single,
        is_timer_self. repeat split.
    + right. split; [exact R | left]. rewrite F, T, T0, F0.
      destruct (pollTimer (ctrl w)); split; reflexivity.
    + rewrite T0 in T. destruct (pollTimer (ctrl w)) as [t | ].
      * rewrite clearTimeout_single in T.
        destruct (is_timer t p).
        -- left. left. rewrite R, F, T, F0. repeat split.
        -- right. split; [exact R | right]. rewrite F, T, F0.
           split; [reflexivity | exists p; reflexivity].
      * right. split; [exact R | right]. rewrite F, T, F0.
        split; [reflexivity | exists p; reflexivity].
  - destruct H as [H | [R H]]; [left; apply one_loop_step; assumption | ].
    destruct i as [ | | t | hw | err now value | err now value];
      cbn [step]; try discriminate Hi; try discriminate Hs; cbn [fst].
    + destruct H as [[F T] | [F [p T]]].
      * rewrite T. cbn. right. split; [exact R | left; tauto].
      * rewrite T, clearTimeout_single. cbn [existsb]. rewrite orb_false_r.
        destruct (is_timer t p); cbn [fst].
        -- unfold poll_begin. cbn [ctrl]. rewrite R. cbn [negb].
           left. left. cbn. tauto.
        -- right. split; [exact R | right]. split; [exact F | ].
           exists p. exact T.
    + destruct H as [[F T] | [F [p T]]].
      * rewrite F. unfold poll_resume.
        destruct (poll_try_setup hw (ctrl w)) as [_ [R' _]].
        destruct (poll_try hw (ctrl w)) as [c evs]. cbn [fst snd] in *.
        right. split; [cbn; rewrite R'; exact R | right]. cbn.
        rewrite F, T. split; [reflexivity | eexists; reflexivity].
      * rewrite F. cbn. right. split; [exact R | right].
        split; [exact F | exists p; exact T].
    + destruct (leftButton (ctrl w)); [destruct err | ]; cbn [fst];
        try (right; split; assumption).
      unfold with_ctrl. cbn [fst].
      destruct (handleLeftButton_setup now (value =? 0)%Z (ctrl w))
        as [_ [R' _]].
      right. unfold winding_down. cbn. rewrite R'. split; assumption.
    + destruct (rightButton (ctrl w)); [destruct err | ]; cbn [fst];
        try (right; split; assumption).
      unfold with_ctrl. cbn [fst].
      destruct (handleRightButton_setup now (value =? 0)%Z (ctrl w))
        as [_ [R' _]].
      right. unfold winding_down. cbn. rewrite R'. split; assumption.
Qed.

Lemma run_app (tr1 tr2 : list Input) :
  forall w,
    run w (tr1 ++ tr2) =
      (fst (run (fst (run w tr1)) tr2),
       snd (run w tr1) ++ snd (run (fst (run w tr1)) tr2)).
Proof.
  induction tr1 as [ | i tr1 IH]; intros w.
  - cbn. destruct (run w tr2). reflexivity.
  - cbn [app]. rewrite !run_cons, IH. cbn [fst snd].
    rewrite app_assoc. reflexivity.
Qed.

Lemma one_loop_run (tr : list Input) :
  forall w,
    one_loop w -> Forall (fun i => is_stop i = false) tr ->
    one_loop (fst (run w tr)).
Proof.
  induction tr as [ | i tr IH]; intros w H Hall; [exact H | ].
  inversion Hall as [ | ? ? Hi Hrest]; subst.
  rewrite run_cons. cbn [fst]. apply IH; [ | exact Hrest].
  apply one_loop_step; assumption.
Qed.

Lemma settled_run (tr : list Input) :
  forall w,
    one_loop w \/ winding_down w ->
    Forall (fun i => is_start i = false) tr ->
    one_loop (fst (run w tr)) \/ winding_down (fst (run w tr)).
Proof.
  induction tr as [ | i tr IH]; intros w H Hall; [exact H | ].
  inversion Hall as [ | ? ? Hi Hrest]; subst.
  rewrite run_cons. cbn [fst]. apply IH; [ | exact Hrest].
  apply settled_step; assumption.
Qed.

Lemma settled_pending (w : World) :
  one_loop w \/ winding_down w ->
  (in_flight w + List.length (timers w) <= 1)%nat.
Proof.
  intros [[[_ [F T]] | [[_ [F T]] | [_ [F [t [T _]]]]]]
          | [_ [[F T] | [F [p T]]]]]; rewrite F, T; cbn; lia.
Qed.

End WindingDown.

(** X10: from a controller that is not running, while [stop] is not
    called the poll loop is always in one of three states: not started;
    running with exactly one tick suspended at its reads and no timeout
    pending; running with no tick in flight and exactly one timeout pending,
    the one [pollTimer] names, at the configured interval.  Repeated calls of
    [start] do not start a second loop. *)
Theorem poll_loop_is_single :
  forall (c : Thumbstick.Controller) (tr : list EventLoop.Input),
    Thumbstick.isRunning c = false ->
    Forall (fun i => Lifecycle.is_stop i = false) tr ->
    Lifecycle.one_loop (fst (EventLoop.run (EventLoop.boot c) tr)).
Proof.
  intros c tr Hr Hall. apply one_loop_run; [ | exact Hall].
  left. cbn. tauto.
Qed.

(** On a Pi: start, start again, the first tick, its timeout, a second
    tick. *)
Lemma poll_loop_is_single_witness :
  let c := Spec.pi_controller Thumbstick.no_options in
  let hw := Spec.readings (9 # 10) (1 # 2) (1 # 2) (1 # 2) in
  let tr :=
    [EventLoop.CallStart; EventLoop.CallStart; EventLoop.ReadsSettle hw;
     EventLoop.TimerFires 1%nat; EventLoop.ReadsSettle hw] in
  Thumbstick.isRunning c = false /\
  Forall (fun i => Lifecycle.is_stop i = false) tr /\
  Lifecycle.one_loop (fst (EventLoop.run (EventLoop.boot c) tr)).
Proof.
  intros c hw tr.
  assert (Hr : Thumbstick.isRunning c = false) by reflexivity.
  assert (Hall : Forall (fun i => Lifecycle.is_stop i = false) tr)
    by (repeat constructor).
  split; [exact Hr | split; [exact Hall | ] ].
  exact (poll_loop_is_single c tr Hr Hall).
Defined.

(** X11: from a controller that is not running, as long as [start] is not
    called again after the first [stop], at every moment at most one thing
    is outstanding: one tick suspended at its reads or one pending timeout,
    never both and never two. *)
Theorem poll_loop_never_doubles :
  forall (c : Thumbstick.Controller) (tr1 tr2 : list EventLoop.Input),
    Thumbstick.isRunning c = false ->
    Forall (fun i => Lifecycle.is_stop i = false) tr1 ->
    Forall (fun i => EventLoop.is_start i = false) tr2 ->
    let w := fst (EventLoop.run (EventLoop.boot c) (tr1 ++ tr2)) in
    (EventLoop.in_flight w + List.length (EventLoop.timers w) <= 1)%nat.
Proof.
  intros c tr1 tr2 Hr H1 H2 w. subst w.
  rewrite run_app. cbn [fst]. apply settled_pending.
  apply settled_run; [ | exact H2].
  left. apply one_loop_run; [ | exact H1].
  left. cbn. tauto.
Qed.

(** On a Pi: start, then stop with the first tick in flight, the tick
    settling and its stray timeout firing. *)
Lemma poll_loop_never_doubles_witness :
  let c := Spec.pi_controller Thumbstick.no_options in
  let hw := Spec.readings (9 # 10) (1 # 2) (1 # 2) (1 # 2) in
  let tr1 := [EventLoop.CallStart] in
  let tr2 :=
    [EventLoop.CallStop; EventLoop.ReadsSettle hw;
     EventLoop.TimerFires 1%nat] in
  let w := fst (EventLoop.run (EventLoop.boot c) (tr1 ++ tr2)) in
  Thumbstick.isRunning c = false /\
  Forall (fun i => Lifecycle.is_stop i = false) tr1 /\
  Forall (fun i => EventLoop.is_start i = false) tr2 /\
  (EventLoop.in_flight w + List.length (EventLoop.timers w) <= 1)%nat.
Proof.
  intros c hw tr1 tr2 w.
  assert (Hr : Thumbstick.isRunning c = false) by reflexivity.
  assert (H1 : Forall (fun i => Lifecycle.is_stop i = false) tr1)
    by (repeat constructor).
  assert (H2 : Forall (fun i => EventLoop.is_start i = false) tr2)
    by (repeat constructor).
  split; [exact Hr | split; [exact H1 | split; [exact H2 | ] ] ].
  exact (poll_loop_never_doubles c tr1 tr2 Hr H1 H2).
Defined.

(** ** Releasing the hardware *)

Section Cleanup.

Import Thumbstick EventLoop Spec Lifecycle.

Lemma stop_setup (w : World) : same_setup (ctrl w) (ctrl (stop w)).
Proof. exact (proj1 (step_setup w CallStop)). Qed.

Lemma cleanup_releases (w : World) :
  snd (cleanup w) =
    close_channels (channels (ctrl w))
      ++ unexport (leftButton (ctrl w)) ++ unexport (rightButton (ctrl w)).
Proof.
  unfold cleanup. cbn [snd].
  destruct (stop_setup w) as [_ [C [L [R _]]]]. rewrite C, L, R.
  reflexivity.
Qed.

Lemma stop_twice (w : World) : stop (stop w) = stop w.
Proof.
  unfold stop. cbn [set_isRunning pollTimer].
  destruct (pollTimer (ctrl w)) eqn:E; cbn; rewrite ?E; reflexivity.
Qed.

End Cleanup.

(** X12: whatever happened since [init], [cleanup] stops the loop and
    releases exactly what [init] had assigned when it returned, channels
    first in the order leftX, leftY, rightX, rightY and then the button
    pins: all six when [init] succeeded or a [watch] threw; nothing when a
    [require] threw (so [cleanup] is harmless without [init]); the four
    channels alone when the constructor of the left [Gpio] threw; the four
    channels and the left pin when that of the right [Gpio] threw. *)
Theorem cleanup_releases_what_init_acquired :
  forall (o : Thumbstick.RawOptions) (env : Thumbstick.InitOutcome)
         (tr : list EventLoop.Input),
    let m := Thumbstick.merge_options o in
    let c := fst (Thumbstick.init env (Thumbstick.new_controller o)) in
    let w := fst (EventLoop.run (EventLoop.boot c) tr) in
    let closes :=
      [Lifecycle.CloseChannel (Thumbstick.leftXChannel m);
       Lifecycle.CloseChannel (Thumbstick.leftYChannel m);
       Lifecycle.CloseChannel (Thumbstick.rightXChannel m);
       Lifecycle.CloseChannel (Thumbstick.rightYChannel m)] in
    let left_pin := [Lifecycle.Unexport (Thumbstick.leftButtonPin m)] in
    let right_pin := [Lifecycle.Unexport (Thumbstick.rightButtonPin m)] in
    snd (Lifecycle.cleanup w) =
      match env with
      | Thumbstick.ModulesLoaded => closes ++ left_pin ++ right_pin
      | Thumbstick.RequireThrows => []
      | Thumbstick.LeftGpioThrows => closes
      | Thumbstick.RightGpioThrows => closes ++ left_pin
      | Thumbstick.WatchThrows => closes ++ left_pin ++ right_pin
      end
    /\ Thumbstick.isRunning (EventLoop.ctrl (fst (Lifecycle.cleanup w)))
       = false
    /\ Thumbstick.pollTimer (EventLoop.ctrl (fst (Lifecycle.cleanup w)))
       = None.
Proof.
  intros o env tr m c w closes left_pin right_pin.
  subst m c w closes left_pin right_pin.
  rewrite cleanup_releases.
  destruct (run_keeps_setup tr
              (EventLoop.boot
                 (fst (Thumbstick.init env (Thumbstick.new_controller o)))))
    as [_ [C [L [R _]]]].
  rewrite C, L, R.
  split; [destruct env; reflexivity | ].
  unfold Lifecycle.cleanup. cbn [fst].
  destruct (stop_cancels
              (fst (EventLoop.run
                      (EventLoop.boot
                         (fst (Thumbstick.init env
                                 (Thumbstick.new_controller o)))) tr)))
    as [A [B _]].
  split; assumption.
Qed.

(** X13: a second [cleanup] finds the loop already stopped and changes
    nothing in the controller, but it closes the same channels and
    unexports the same pins once more: the handles are not cleared. *)
Theorem cleanup_twice_releases_twice :
  forall w : EventLoop.World,
    fst (Lifecycle.cleanup (fst (Lifecycle.cleanup w)))
      = fst (Lifecycle.cleanup w) /\
    snd (Lifecycle.cleanup (fst (Lifecycle.cleanup w)))
      = snd (Lifecycle.cleanup w).
Proof.
  intros w. split.
  - unfold Lifecycle.cleanup. cbn [fst]. apply stop_twice.
  - rewrite !cleanup_releases. unfold Lifecycle.cleanup. cbn [fst].
    destruct (stop_setup w) as [_ [C [L [R _]]]]. rewrite C, L, R.
    reflexivity.
Qed.

(** * Further properties of the server *)

(** ** Cleansing of submitted text *)

Section Cleansing.

Import Http.

Local Open Scope string_scope.

Lemma occurs_app (c : ascii) (a b : string) :
  occurs c (a ++ b) = occurs c a || occurs c b.
Proof.
  induction a as [ | x a IH]; [reflexivity | ].
  cbn. rewrite IH. apply orb_assoc.
Qed.

Lemma count_app (c : ascii) (a b : string) :
  count c (a ++ b) = (count c a + count c b)%nat.
Proof.
  induction a as [ | x a IH]; [reflexivity | ].
  cbn. rewrite IH. lia.
Qed.

Lemma length_app (a b : string) :
  String.length (a ++ b) = (String.length a + String.length b)%nat.
Proof.
  induction a as [ | x a IH]; [reflexivity | ].
  cbn. rewrite IH. reflexivity.
Qed.

Lemma occurs_count (c : ascii) (s : string) :
  occurs c s = false <-> count c s = 0%nat.
Proof.
  induction s as [ | x s IH]; [cbn; tauto | ].
  cbn. destruct (Ascii.eqb x c); cbn; [split; [discriminate | lia] | ].
  exact IH.
Qed.

(** The replaced character is gone when the replacement is free of it. *)
Lemma replace_char_removes (c : ascii) (by_ s : string) :
  occurs c by_ = false -> occurs c (replace_char c by_ s) = false.
Proof.
  intros Hb. induction s as [ | x s IH]; [reflexivity | ].
  cbn. destruct (Ascii.eqb x c) eqn:E.
  - rewrite occurs_app, Hb, IH. reflexivity.
  - cbn. rewrite E, IH. reflexivity.
Qed.

(** A character absent from the string and from the replacement stays
    absent. *)
Lemma replace_char_keeps_absent (c c' : ascii) (by_ s : string) :
  occurs c by_ = false -> occurs c s = false ->
  occurs c (replace_char c' by_ s) = false.
Proof.
  intros Hb. induction s as [ | x s IH]; intros Hs; [reflexivity | ].
  cbn in Hs. apply orb_false_iff in Hs. destruct Hs as [Hx Hs].
  cbn. destruct (Ascii.eqb x c').
  - rewrite occurs_app, Hb, (IH Hs). reflexivity.
  - cbn. rewrite Hx, (IH Hs). reflexivity.
Qed.

Lemma replace_char_absent (c : ascii) (by_ s : string) :
  occurs c s = false -> replace_char c by_ s = s.
Proof.
  induction s as [ | x s IH]; intros Hs; [reflexivity | ].
  cbn in Hs. apply orb_false_iff in Hs. destruct Hs as [Hx Hs].
  cbn. rewrite Hx, (IH Hs). reflexivity.
Qed.

Lemma append_assoc (a b c : string) : (a ++ b) ++ c = a ++ (b ++ c).
Proof.
  induction a as [ | x a IH]; [reflexivity | ].
  cbn. rewrite IH. reflexivity.
Qed.

Lemma replace_char_app (c : ascii) (by_ a b : string) :
  replace_char c by_ (a ++ b) = replace_char c by_ a ++ replace_char c by_ b.
Proof.
  induction a as [ | x a IH]; [reflexivity | ].
  cbn. destruct (Ascii.eqb x c); rewrite IH; [ | reflexivity].
  symmetry. apply append_assoc.
Qed.

Lemma replace_char_length (c : ascii) (by_ s : string) :
  (String.length (replace_char c by_ s) + count c s
   = String.length s + count c s * String.length by_)%nat.
Proof.
  induction s as [ | x s IH]; [reflexivity | ].
  cbn. destruct (Ascii.eqb x c); cbn; rewrite ?length_app; lia.
Qed.

Lemma replace_char_count_other (c c' : ascii) (by_ s : string) :
  count c by_ = 0%nat -> Ascii.eqb c' c = false ->
  count c (replace_char c' by_ s) = count c s.
Proof.
  intros Hb Hne. induction s as [ | x s IH]; [reflexivity | ].
  cbn. destruct (Ascii.eqb x c') eqn:E.
  - apply Ascii.eqb_eq in E. subst x. rewrite Hne, count_app, Hb, IH.
    reflexivity.
  - cbn. rewrite IH. reflexivity.
Qed.

End Cleansing.

(** X14: the result of [cleanseString] contains neither [<] nor [>]. *)
Theorem cleanseString_removes_angle_brackets :
  forall s : string,
    Http.occurs "<" (Http.cleanseString s) = false /\
    Http.occurs ">" (Http.cleanseString s) = false.
Proof.
  intros s. unfold Http.cleanseString. split.
  - apply replace_char_keeps_absent; [reflexivity | ].
    apply replace_char_removes. reflexivity.
  - apply replace_char_removes. reflexivity.
Qed.

(** X15: [cleanseString] is idempotent, and the strings it leaves as they
    are are exactly those without [<] and [>]; an ampersand, and so an
    entity already present, is not escaped. *)
Theorem cleanseString_idempotent :
  forall s : string,
    Http.cleanseString (Http.cleanseString s) = Http.cleanseString s /\
    (Http.cleanseString s = s <->
       Http.occurs "<" s = false /\ Http.occurs ">" s = false).
Proof.
  intros s.
  assert (Fix : forall x, Http.occurs "<" x = false ->
                          Http.occurs ">" x = false ->
                          Http.cleanseString x = x).
  { intros x Hl Hg. unfold Http.cleanseString.
    rewrite (replace_char_absent "<" _ x Hl).
    apply replace_char_absent. exact Hg. }
  assert (No : Http.occurs "<" (Http.cleanseString s) = false /\
               Http.occurs ">" (Http.cleanseString s) = false).
  { unfold Http.cleanseString. split.
    - apply replace_char_keeps_absent; [reflexivity | ].
      apply replace_char_removes. reflexivity.
    - apply replace_char_removes. reflexivity. }
  split; [apply Fix; apply No | ].
  split; [intros E; rewrite <- E; exact No | intros [Hl Hg]; apply Fix;
                                               assumption].
Qed.

(** X16: [cleanseString] works character by character: it distributes
    over concatenation, and the result is longer than the input by three
    characters for every [<] and every [>]. *)
Theorem cleanseString_distributes_and_grows :
  forall a b : string,
    Http.cleanseString (a ++ b)
      = (Http.cleanseString a ++ Http.cleanseString b)%string /\
    String.length (Http.cleanseString a)
      = (String.length a + 3 * (Http.count "<" a + Http.count ">" a))%nat.
Proof.
  intros a b. unfold Http.cleanseString. split.
  - rewrite !replace_char_app. reflexivity.
  - pose proof (replace_char_length "<" "&lt;" a) as H1.
    pose proof (replace_char_length ">" "&gt;"
                  (Http.replace_char "<" "&lt;" a)) as H2.
    rewrite (replace_char_count_other ">" "<" "&lt;" a eq_refl eq_refl)
      in H2.
    cbn [String.length] in H1, H2. lia.
Qed.

(** ** Channel ids *)

Section ChannelIds.

Import Http.

Local Open Scope string_scope.

Lemma split_on_nonempty (sep : ascii) (s : string) : split_on sep s <> [].
Proof.
  destruct s as [ | a s]; cbn; [discriminate | ].
  destruct (Ascii.eqb a sep); [discriminate | ].
  destruct (split_on sep s); discriminate.
Qed.

(** A string without the separator is a single part. *)
Lemma split_on_absent (sep : ascii) (s : string) :
  occurs sep s = false -> split_on sep s = [s].
Proof.
  induction s as [ | a s IH]; intros H; [reflexivity | ].
  cbn in H. apply orb_false_iff in H. destruct H as [Ha Hs].
  cbn. rewrite Ha, (IH Hs). reflexivity.
Qed.

(** Joining the parts with the separator gives the string back. *)
Lemma split_on_join (sep : ascii) (s : string) :
  String.concat (String sep EmptyString) (split_on sep s) = s.
Proof.
  induction s as [ | a s IH]; [reflexivity | ].
  cbn [split_on]. pose proof (split_on_nonempty sep s) as Hne.
  destruct (Ascii.eqb a sep) eqn:E.
  - apply Ascii.eqb_eq in E. subst a.
    destruct (split_on sep s) as [ | p ps]; [congruence | ].
    change (String.concat (String sep EmptyString) (EmptyString :: p :: ps))
      with (String sep
              (String.concat (String sep EmptyString) (p :: ps))).
    rewrite IH. reflexivity.
  - destruct (split_on sep s) as [ | p ps]; [congruence | ].
    destruct ps as [ | q ps].
    + cbn in IH |- *. rewrite IH. reflexivity.
    + change (String.concat (String sep EmptyString)
                (String a p :: q :: ps))
        with (String a
                (String.concat (String sep EmptyString) (p :: q :: ps))).
      rewrite IH. reflexivity.
Qed.

Lemma split_on_parts (sep : ascii) (s : string) :
  Forall (fun p => occurs sep p = false) (split_on sep s).
Proof.
  induction s as [ | a s IH]; [repeat constructor | ].
  cbn [split_on]. destruct (Ascii.eqb a sep) eqn:E.
  - constructor; [reflexivity | exact IH].
  - destruct (split_on sep s) as [ | p ps]; [repeat constructor | ].
    + cbn. rewrite E. reflexivity.
    + inversion IH as [ | ? ? Hp Hps]; subst.
      constructor; [cbn; rewrite E, Hp; reflexivity | exact Hps].
Qed.

(** What follows the last separator is the last part. *)
Lemma split_on_last (sep : ascii) (seg : string) :
  occurs sep seg = false ->
  forall prefix,
    split_on sep (prefix ++ String sep seg)
      = (split_on sep prefix ++ [seg])%list.
Proof.
  intros Hseg. induction prefix as [ | a prefix IH].
  - cbn. rewrite Ascii.eqb_refl, (split_on_absent sep seg Hseg).
    reflexivity.
  - cbn [append split_on]. rewrite IH.
    destruct (Ascii.eqb a sep); [reflexivity | ].
    pose proof (split_on_nonempty sep prefix) as Hne.
    destruct (split_on sep prefix) as [ | p ps]; [congruence | ].
    reflexivity.
Qed.

Lemma splice_last_snoc {A : Type} (l : list A) (x : A) :
  splice_last (l ++ [x]) = [x].
Proof. unfold splice_last. rewrite rev_app_distr. reflexivity. Qed.

End ChannelIds.

(** X17: splitting a URL at [/] and joining the parts with [/] gives the
    URL back, no part contains a [/], and the channel id is always
    defined. *)
Theorem split_join_round_trip :
  forall url : string,
    String.concat "/" (Http.split_on "/" url) = url /\
    Forall (fun p => Http.occurs "/" p = false) (Http.split_on "/" url) /\
    exists id, Http.channelId_of url = Some id
               /\ Http.occurs "/" id = false.
Proof.
  intros url. split; [apply split_on_join | ].
  pose proof (split_on_parts "/" url) as Hp.
  split; [exact Hp | ].
  unfold Http.channelId_of, Http.splice_last.
  pose proof (split_on_nonempty "/" url) as Hne.
  assert (Hr : Forall (fun p => Http.occurs "/" p = false)
                 (rev (Http.split_on "/" url))).
  { apply Forall_rev. exact Hp. }
  destruct (rev (Http.split_on "/" url)) as [ | x xs] eqn:E.
  - exfalso. apply Hne. apply (f_equal (@rev string)) in E.
    rewrite rev_involutive in E. exact E.
  - exists x. split; [reflexivity | ].
    inversion Hr; assumption.
Qed.

(** X18: the channel id of a URL is what follows its last [/]: for a URL
    [prefix/id] with no [/] in [id] it is [id] (the empty string when the
    URL ends in [/]), and a URL without any [/] is its own channel id. *)
Theorem channelId_is_last_segment :
  forall prefix id : string,
    Http.occurs "/" id = false ->
    Http.channelId_of (prefix ++ String "/" id) = Some id /\
    Http.channelId_of id = Some id.
Proof.
  intros prefix id H. unfold Http.channelId_of. split.
  - rewrite (split_on_last "/" id H prefix), splice_last_snoc. reflexivity.
  - rewrite (split_on_absent "/" id H). reflexivity.
Qed.

(** The path of a channel page. *)
Lemma channelId_is_last_segment_witness :
  Http.occurs "/" "kqXsJxgL" = false /\
  Http.channelId_of ("/listen/radio-one" ++ String "/" "kqXsJxgL")
    = Some "kqXsJxgL"%string.
Proof.
  assert (H : Http.occurs "/" "kqXsJxgL" = false) by reflexivity.
  split; [exact H | ].
  exact (proj1 (channelId_is_last_segment "/listen/radio-one" "kqXsJxgL" H)).
Defined.

(** ** Adding a favorite *)

Section Favorites.

Import Http.

Local Open Scope string_scope.

(** A truthy value is a filled string, or it is not a string at all. *)
Lemma truthy_cases (v : option Json) :
  truthy v = true ->
  (exists s, filled v = Some s /\ v = Some (JString s)
             /\ cleanse_value v = JS.Normal (cleanseString s))
  \/ (filled v = None /\ exists e, cleanse_value v = JS.Throw e).
Proof.
  intros H.
  destruct v as [[ | b | n | [ | a s] | items | members] | ]; cbn in H;
    try discriminate H;
    try (right; split; [reflexivity | eexists; reflexivity]).
  left. exists (String a s). repeat split.
Qed.

Lemma filled_truthy (v : option Json) (s : string) :
  filled v = Some s ->
  truthy v = true /\ cleanse_value v = JS.Normal (cleanseString s).
Proof.
  destruct v as [[ | b | n | [ | a x] | items | members] | ]; cbn;
    intros H; try discriminate H.
  injection H as <-. split; reflexivity.
Qed.

(** Only an object has the three properties. *)
Lemma get_truthy (key : string) (data : Json) :
  truthy (get key data) = true -> truthy (Some data) = true.
Proof. destruct data; cbn; try discriminate. reflexivity. Qed.

Lemma cleansed_clean (x : string) :
  occurs "<" (cleanseString x) = false /\ occurs ">" (cleanseString x) = false.
Proof.
  unfold cleanseString. split.
  - apply replace_char_keeps_absent; [reflexivity | ].
    apply replace_char_removes. reflexivity.
  - apply replace_char_removes. reflexivity.
Qed.

End Favorites.

(** X19: whatever JSON the body of [POST /addfavorite] is, the handler
    reaches the database exactly when the body has a channelId, a title
    and a location that are non-empty strings; it then binds the three
    cleansed texts, free of [<] and [>], and the coordinates as they were
    submitted.  When the three are truthy but one is not a string the
    handler throws, with neither a 400 reply nor an INSERT; in every other
    case it replies 400. *)
Theorem addfavorite_stores_cleansed_strings :
  forall body : option Http.Json,
    (forall row, Http.addfavorite body = Http.Insert row <->
       exists data c t l,
         body = Some data
         /\ Http.filled (Http.get "channelId" data) = Some c
         /\ Http.filled (Http.get "title" data) = Some t
         /\ Http.filled (Http.get "location" data) = Some l
         /\ row = Http.mkFavoriteRow (Http.cleanseString c)
                    (Http.cleanseString t) (Http.cleanseString l)
                    (Http.get "lng" data) (Http.get "lat" data)) /\
    (forall row, Http.addfavorite body = Http.Insert row ->
       Http.occurs "<" (Http.row_channelId row) = false
       /\ Http.occurs ">" (Http.row_channelId row) = false
       /\ Http.occurs "<" (Http.row_title row) = false
       /\ Http.occurs ">" (Http.row_title row) = false
       /\ Http.occurs "<" (Http.row_location row) = false
       /\ Http.occurs ">" (Http.row_location row) = false) /\
    ((exists e, Http.addfavorite body = Http.HandlerThrows e) <->
       exists data,
         body = Some data
         /\ Http.truthy (Http.get "channelId" data) = true
         /\ Http.truthy (Http.get "title" data) = true
         /\ Http.truthy (Http.get "location" data) = true
         /\ (Http.filled (Http.get "channelId" data) = None
             \/ Http.filled (Http.get "title" data) = None
             \/ Http.filled (Http.get "location" data) = None)).
Proof.
  intros body.
  assert (Ins : forall row, Http.addfavorite body = Http.Insert row <->
            exists data c t l,
              body = Some data
              /\ Http.filled (Http.get "channelId" data) = Some c
              /\ Http.filled (Http.get "title" data) = Some t
              /\ Http.filled (Http.get "location" data) = Some l
              /\ row = Http.mkFavoriteRow (Http.cleanseString c)
                         (Http.cleanseString t) (Http.cleanseString l)
                         (Http.get "lng" data) (Http.get "lat" data)).
  { intros row. split.
    - destruct body as [data | ]; [ | discriminate]. cbn [Http.addfavorite].
      destruct (Http.truthy (Some data)) eqn:Td; [ | discriminate].
      destruct (Http.truthy (Http.get "channelId" data)) eqn:Tc;
        [ | discriminate].
      destruct (Http.truthy (Http.get "title" data)) eqn:Tt;
        [ | discriminate].
      destruct (Http.truthy (Http.get "location" data)) eqn:Tl;
        [ | discriminate].
      cbn [negb orb].
      destruct (truthy_cases _ Tc) as [[c [Fc [_ Cc]]] | [_ [e Cc]]];
        rewrite Cc; [ | discriminate].
      destruct (truthy_cases _ Tt) as [[t [Ft [_ Ct]]] | [_ [e Ct]]];
        rewrite Ct; [ | discriminate].
      destruct (truthy_cases _ Tl) as [[l [Fl [_ Cl]]] | [_ [e Cl]]];
        rewrite Cl; [ | discriminate].
      intros H. injection H as <-.
      exists data, c, t, l. repeat split; assumption.
    - intros [data [c [t [l [-> [Fc [Ft [Fl ->]]]]]]]].
      destruct (filled_truthy _ _ Fc) as [Tc Cc].
      destruct (filled_truthy _ _ Ft) as [Tt Ct].
      destruct (filled_truthy _ _ Fl) as [Tl Cl].
      cbn [Http.addfavorite].
      rewrite (get_truthy _ _ Tc), Tc, Tt, Tl, Cc, Ct, Cl. reflexivity. }
  split; [exact Ins | split].
  - intros row H. apply Ins in H.
    destruct H as [data [c [t [l [_ [_ [_ [_ ->]]]]]]]].
    cbn [Http.row_channelId Http.row_title Http.row_location].
    destruct (cleansed_clean c), (cleansed_clean t), (cleansed_clean l).
    tauto.
  - split.
    + intros [e H]. destruct body as [data | ]; [ | discriminate].
      exists data. split; [reflexivity | ]. cbn [Http.addfavorite] in H.
      destruct (Http.truthy (Some data)) eqn:Td; [ | discriminate].
      destruct (Http.truthy (Http.get "channelId" data)) eqn:Tc;
        [ | discriminate].
      destruct (Http.truthy (Http.get "title" data)) eqn:Tt;
        [ | discriminate].
      destruct (Http.truthy (Http.get "location" data)) eqn:Tl;
        [ | discriminate].
      split; [reflexivity | split; [reflexivity | split; [reflexivity | ] ] ].
      cbn [negb orb] in H.
      destruct (truthy_cases _ Tc) as [[c [Fc [_ Cc]]] | [Fc _]];
        [rewrite Cc in H | left; exact Fc].
      destruct (truthy_cases _ Tt) as [[t [Ft [_ Ct]]] | [Ft _]];
        [rewrite Ct in H | right; left; exact Ft].
      destruct (truthy_cases _ Tl) as [[l [Fl [_ Cl]]] | [Fl _]];
        [rewrite Cl in H; discriminate H | right; right; exact Fl].
    + intros [data [-> [Tc [Tt [Tl Hn]]]]]. cbn [Http.addfavorite].
      rewrite (get_truthy _ _ Tc), Tc, Tt, Tl. cbn [negb orb].
      destruct (truthy_cases _ Tc) as [[c [Fc [_ Cc]]] | [Fc [e Cc]]];
        rewrite Cc; [ | exists e; reflexivity].
      destruct (truthy_cases _ Tt) as [[t [Ft [_ Ct]]] | [Ft [e Ct]]];
        rewrite Ct; [ | exists e; reflexivity].
      destruct (truthy_cases _ Tl) as [[l [Fl [_ Cl]]] | [Fl [e Cl]]];
        rewrite Cl; [ | exists e; reflexivity].
      exfalso. destruct Hn as [H | [H | H]]; congruence.
Qed.

(** ** The display relay *)

Section Relay.

Import Http.

Lemma display_step (r : DisplayRequest) (pin : Z) :
  (pin = 0 \/ pin = 1)%Z ->
  ((fst (display r pin) = 0 \/ fst (display r pin) = 1)
   /\ snd (display r pin) = 1 - fst (display r pin))%Z.
Proof. intros [-> | ->]; destruct r; cbv; intuition congruence. Qed.

Lemma display_requests_cons (r : DisplayRequest) (rs : list DisplayRequest)
    (pin : Z) :
  display_requests pin (r :: rs) =
    (fst (display_requests (fst (display r pin)) rs),
     snd (display r pin) :: snd (display_requests (fst (display r pin)) rs)).
Proof.
  cbn [display_requests]. destruct (display r pin) as [p1 reply].
  cbn [fst snd]. destruct (display_requests p1 rs). reflexivity.
Qed.

End Relay.

(** X20: with the relay pin at 0 or 1 (it starts at 0), after any sequence
    of display requests the pin is still 0 or 1, every reply carries 0 or
    1, and the last reply is the complement of the pin: [displayState] is 1
    when the pin is low.  A toggle flips the pin and reports the level the
    pin had before. *)
Theorem display_state_is_complement_of_pin :
  forall (pin : Z) (rs : list Http.DisplayRequest),
    (pin = 0 \/ pin = 1)%Z ->
    let res := Http.display_requests pin rs in
    ((fst res = 0 \/ fst res = 1)
     /\ Forall (fun reply => reply = 0 \/ reply = 1) (snd res)
     /\ (rs <> [] -> last (snd res) 0 = 1 - fst res)
     /\ Http.displayToggle pin = (1 - pin, pin))%Z.
Proof.
  intros pin rs Hp res. subst res.
  split; [ | split; [ | split] ].
  - revert pin Hp. induction rs as [ | r rs IH]; intros pin Hp;
      [exact Hp | ].
    rewrite display_requests_cons. cbn [fst].
    apply IH. apply display_step. exact Hp.
  - revert pin Hp. induction rs as [ | r rs IH]; intros pin Hp;
      [constructor | ].
    rewrite display_requests_cons. cbn [snd].
    destruct (display_step r pin Hp) as [H1 H2].
    constructor; [lia | apply IH; exact H1].
  - revert pin Hp. induction rs as [ | r rs IH]; intros pin Hp Hne;
      [congruence | ].
    rewrite display_requests_cons. cbn [fst snd].
    destruct (display_step r pin Hp) as [H1 H2].
    destruct rs as [ | r' rs].
    + cbn. exact H2.
    + specialize (IH _ H1 ltac:(discriminate)).
      rewrite display_requests_cons in IH |- *. cbn [fst snd] in IH |- *.
      exact IH.
  - destruct Hp as [-> | ->]; reflexivity.
Qed.

(** From the pin at 0: off, toggle, toggle. *)
Lemma display_state_is_complement_of_pin_witness :
  let rs := [Http.Off; Http.Toggle; Http.Toggle] in
  (0 = 0 \/ 0 = 1)%Z /\
  rs <> [] /\
  Http.display_requests 0 rs = (1%Z, [0%Z; 1%Z; 0%Z]) /\
  (last (snd (Http.display_requests 0 rs)) 0
   = 1 - fst (Http.display_requests 0 rs))%Z.
Proof.
  intros rs.
  assert (Hp : (0 = 0 \/ 0 = 1)%Z) by (left; reflexivity).
  assert (Hne : rs <> []) by discriminate.
  split; [exact Hp | split; [exact Hne | split; [reflexivity | ] ] ].
  destruct (display_state_is_complement_of_pin 0 rs Hp) as [_ [_ [H _]]].
  exact (H Hne).
Defined.

(** ** Resolving a stream URL *)

Section Redirects.

Import Http.

Variable fetch : option string -> Fetched.

Lemma follow_S (n : nat) (u : option string) :
  follow fetch (S n) u =
    match fetch u with
    | FetchRejects => (Rejected, [u])
    | Responds res =>
        if (status res =? 301)%Z || (status res =? 302)%Z then
          (fst (follow fetch n (header_location res)),
           u :: snd (follow fetch n (header_location res)))
        else if (status res =? 200)%Z then (Resolved u res, [u])
        else (Unexpected (status res), [u])
    end.
Proof.
  cbn [follow]. destruct (fetch u) as [ | res]; [reflexivity | ].
  destruct ((status res =? 301)%Z || (status res =? 302)%Z);
    [ | reflexivity].
  destruct (follow fetch n (header_location res)). reflexivity.
Qed.

(** Never more fetches than iterations; all of them when it gives up. *)
Lemma follow_bound (n : nat) :
  forall u,
    (List.length (snd (follow fetch n u)) <= n)%nat
    /\ (forall v, fst (follow fetch n u) = GaveUp v ->
          List.length (snd (follow fetch n u)) = n)
    /\ (n <> 0%nat -> hd_error (snd (follow fetch n u)) = Some u).
Proof.
  induction n as [ | n IH]; intros u.
  - cbn. split; [lia | split; [reflexivity | congruence] ].
  - rewrite follow_S. destruct (fetch u) as [ | res].
    + cbn. split; [lia | split; [intros v H; discriminate H | reflexivity] ].
    + destruct ((status res =? 301)%Z || (status res =? 302)%Z).
      * destruct (IH (header_location res)) as [B [G _]]. cbn [fst snd].
        split; [cbn; lia | split; [ | reflexivity] ].
        intros v H. cbn. rewrite (G v H). reflexivity.
      * destruct (status res =? 200)%Z; cbn;
          (split; [lia | split; [intros v H; discriminate H | reflexivity] ]).
Qed.

Lemma last_cons_nonempty {A : Type} (x : A) (l : list A) (d d' : A) :
  l <> [] -> last (x :: l) d = last l d'.
Proof.
  intros Hne. destruct l as [ | y l]; [congruence | ].
  cbn [last]. clear Hne x. revert y.
  induction l as [ | z l IH]; intros y; [reflexivity | ].
  cbn [last] in *. apply IH.
Qed.

(** Unless it gives up, it has fetched something. *)
Lemma follow_fetched (n : nat) (u : option string) :
  (exists v, fst (follow fetch n u) = GaveUp v)
  \/ snd (follow fetch n u) <> [].
Proof.
  destruct n as [ | n]; [left; exists u; reflexivity | ].
  right. rewrite follow_S. destruct (fetch u) as [ | res]; [discriminate | ].
  destruct ((status res =? 301)%Z || (status res =? 302)%Z);
    [discriminate | ].
  destruct (status res =? 200)%Z; discriminate.
Qed.

(** What each outcome says about the last URL fetched. *)
Lemma follow_sound (n : nat) :
  forall u,
    let r := fst (follow fetch n u) in
    let fetched := snd (follow fetch n u) in
    (forall v res, r = Resolved v res ->
       status res = 200%Z /\ fetch v = Responds res
       /\ last fetched None = v)
    /\ (forall st, r = Unexpected st ->
          st <> 200%Z /\ st <> 301%Z /\ st <> 302%Z
          /\ exists res, fetch (last fetched None) = Responds res
                         /\ status res = st)
    /\ (r = Rejected -> fetch (last fetched None) = FetchRejects).
Proof.
  induction n as [ | n IH]; intros u; cbv zeta.
  - cbn. split; [ | split]; intros; discriminate.
  - rewrite follow_S. destruct (fetch u) as [ | res] eqn:F.
    + cbn. split; [ | split]; intros; try discriminate. exact F.
    + destruct ((status res =? 301)%Z || (status res =? 302)%Z) eqn:R.
      * cbn [fst snd].
        destruct (IH (header_location res)) as [A [B C]].
        assert (L : (forall v, fst (follow fetch n (header_location res))
                               <> GaveUp v) ->
                    last (u :: snd (follow fetch n (header_location res)))
                      None
                    = last (snd (follow fetch n (header_location res)))
                        None).
        { intros Hg. apply last_cons_nonempty.
          destruct (follow_fetched n (header_location res)) as [[v Hv] | H];
            [exfalso; exact (Hg v Hv) | exact H]. }
        split; [ | split].
        -- intros v res' H. rewrite L; [apply A; exact H | ].
           intros v' Hv'. congruence.
        -- intros st H. rewrite L; [apply B; exact H | ].
           intros v' Hv'. congruence.
        -- intros H. rewrite L; [apply C; exact H | ].
           intros v' Hv'. congruence.
      * apply orb_false_iff in R. destruct R as [R1 R2].
        destruct (status res =? 200)%Z eqn:S200; cbn.
        -- split; [ | split]; intros; try discriminate.
           injection H as <- <-.
           split; [apply Z.eqb_eq; exact S200 | split; [exact F | ] ].
           reflexivity.
        -- apply Z.eqb_neq in R1, R2, S200.
           split; [ | split]; intros; try discriminate.
           injection H as <-.
           split; [exact S200 | split; [exact R1 | split; [exact R2 | ] ] ].
           exists res. split; [exact F | reflexivity].
Qed.

End Redirects.

(** X21: [resolveStreamUrl] fetches at most [maxRedirects] times, the
    given URL first, whatever the servers answer (a redirect cycle
    included); when it runs out of redirects it has fetched exactly
    [maxRedirects] times and returns a URL without a response; with
    [maxRedirects] 0 it returns the given URL without fetching. *)
Theorem resolveStreamUrl_fetches_are_bounded :
  forall (fetch : option string -> Http.Fetched) (url : string)
         (maxRedirects : nat),
    let res := Http.resolveStreamUrl fetch url maxRedirects in
    (List.length (snd res) <= maxRedirects)%nat /\
    (forall v, fst res = Http.GaveUp v ->
       List.length (snd res) = maxRedirects) /\
    (maxRedirects <> 0%nat -> hd_error (snd res) = Some (Some url)) /\
    Http.resolveStreamUrl fetch url 0 = (Http.GaveUp (Some url), []).
Proof.
  intros fetch url maxRedirects res. subst res.
  unfold Http.resolveStreamUrl.
  destruct (follow_bound fetch maxRedirects (Some url)) as [A [B C]].
  split; [exact A | split; [exact B | split; [exact C | reflexivity] ] ].
Qed.

(** X22: what the outcomes of [resolveStreamUrl] mean.  A result with a
    response carries the response with status 200 that the last fetch got,
    and the URL of that fetch; an error result carries the status of the
    last response, which is none of 200, 301, 302; the promise rejects only
    when the last fetch rejected. *)
Theorem resolveStreamUrl_outcomes :
  forall (fetch : option string -> Http.Fetched) (url : string)
         (maxRedirects : nat),
    let r := fst (Http.resolveStreamUrl fetch url maxRedirects) in
    let fetched := snd (Http.resolveStreamUrl fetch url maxRedirects) in
    (forall v res, r = Http.Resolved v res ->
       Http.status res = 200%Z /\ fetch v = Http.Responds res
       /\ last fetched None = v) /\
    (forall st, r = Http.Unexpected st ->
       st <> 200%Z /\ st <> 301%Z /\ st <> 302%Z
       /\ exists res, fetch (last fetched None) = Http.Responds res
                      /\ Http.status res = st) /\
    (r = Http.Rejected ->
       fetch (last fetched None) = Http.FetchRejects).
Proof.
  intros fetch url maxRedirects r fetched. subst r fetched.
  unfold Http.resolveStreamUrl.
  exact (follow_sound fetch maxRedirects (Some url)).
Qed.

(** ** Messages to the subscribers *)

(** X23: the serialisations of two different events differ: a subscriber
    can tell from the payload which event was emitted and with what
    data. *)
Theorem stringify_tells_events_apart :
  forall e1 e2 : Thumbstick.Event,
    Server.stringify (Server.to_message e1)
      = Server.stringify (Server.to_message e2) ->
    e1 = e2.
Proof.
  intros e1 e2 H.
  destruct e1 as [[ | ] | | [ | ] | [ | | | ] | [ | | | ]];
    destruct e2 as [[ | ] | | [ | ] | [ | | | ] | [ | | | ]];
    try reflexivity; vm_compute in H; discriminate H.
Qed.

(** Two payloads that are equal. *)
Lemma stringify_tells_events_apart_witness :
  Server.stringify (Server.to_message (Thumbstick.pan Thumbstick.Up))
    = Server.stringify (Server.to_message (Thumbstick.pan Thumbstick.Up)) /\
  Thumbstick.pan Thumbstick.Up = Thumbstick.pan Thumbstick.Up.
Proof.
  split; [reflexivity | ].
  exact (stringify_tells_events_apart (Thumbstick.pan Thumbstick.Up)
           (Thumbstick.pan Thumbstick.Up) eq_refl).
Defined.

(** ** The registry of subscribers *)

Section RegistryFacts.

Import Server WsEndpoint.

Lemma add_In (s x : Socket) (r : Registry) :
  In x (add s r) <-> x = s \/ In x r.
Proof.
  unfold add. destruct (existsb (Nat.eqb s) r) eqn:E.
  - split; [tauto | ]. intros [-> | H]; [ | exact H].
    apply existsb_exists in E. destruct E as [y [Hy Ey]].
    apply Nat.eqb_eq in Ey. subst y. exact Hy.
  - rewrite in_app_iff. cbn. intuition congruence.
Qed.

Lemma delete_In (s x : Socket) (r : Registry) :
  In x (delete s r) <-> x <> s /\ In x r.
Proof.
  unfold delete. rewrite filter_In, negb_true_iff, Nat.eqb_neq.
  intuition congruence.
Qed.

Lemma add_NoDup (s : Socket) (r : Registry) : NoDup r -> NoDup (add s r).
Proof.
  intros H. unfold add. destruct (existsb (Nat.eqb s) r) eqn:E;
    [exact H | ].
  apply NoDup_app; [exact H | repeat constructor; intros [] | ].
  intros x Hx [Es | []]. subst x.
  assert (existsb (Nat.eqb s) r = true); [ | congruence].
  apply existsb_exists. exists s. split; [exact Hx | apply Nat.eqb_refl].
Qed.

Lemma delete_NoDup (s : Socket) (r : Registry) :
  NoDup r -> NoDup (delete s r).
Proof. intros H. unfold delete. apply NoDup_filter. exact H. Qed.

Lemma on_event_NoDup (r : Registry) (e : RegistryEvent) :
  NoDup r -> NoDup (on_event r e).
Proof.
  intros H. destruct e; cbn; [apply add_NoDup | apply delete_NoDup
                               | apply delete_NoDup]; exact H.
Qed.

Lemma fold_on_event_NoDup (history : list RegistryEvent) :
  forall r, NoDup r -> NoDup (fold_left on_event history r).
Proof.
  induction history as [ | e history IH]; intros r H; [exact H | ].
  cbn. apply IH. apply on_event_NoDup. exact H.
Qed.

Lemma registry_after_snoc (history : list RegistryEvent)
    (e : RegistryEvent) :
  registry_after (history ++ [e]) = on_event (registry_after history) e.
Proof. unfold registry_after. rewrite fold_left_app. reflexivity. Qed.

End RegistryFacts.

(** X24: [wsClients] behaves as a set under connections, closes and socket
    errors: after any history it holds no socket twice; a socket that just
    connected is in it, and connecting again changes nothing; a socket that
    just closed or failed is not in it; and an event of one socket leaves
    the membership of every other socket as it was. *)
Theorem registry_is_a_set :
  forall (history : list WsEndpoint.RegistryEvent) (s : Server.Socket),
    let r := WsEndpoint.registry_after history in
    NoDup r /\
    In s (WsEndpoint.registry_after (history ++ [WsEndpoint.Connects s])) /\
    WsEndpoint.registry_after
      (history ++ [WsEndpoint.Connects s; WsEndpoint.Connects s])
    = WsEndpoint.registry_after (history ++ [WsEndpoint.Connects s]) /\
    ~ In s (WsEndpoint.registry_after (history ++ [WsEndpoint.Closes s])) /\
    ~ In s (WsEndpoint.registry_after (history ++ [WsEndpoint.Errors s])) /\
    (forall s', s' <> s ->
       (In s (Server.add s' r) <-> In s r)
       /\ (In s (Server.delete s' r) <-> In s r)).
Proof.
  intros history s r. subst r.
  split; [apply fold_on_event_NoDup; constructor | ].
  split; [rewrite registry_after_snoc; apply add_In; left; reflexivity | ].
  split.
  { change (history ++ [WsEndpoint.Connects s; WsEndpoint.Connects s])
      with (history ++ [WsEndpoint.Connects s] ++ [WsEndpoint.Connects s]).
    rewrite app_assoc, (registry_after_snoc (history ++ _)).
    cbn [WsEndpoint.on_event]. unfold Server.add at 1.
    assert (E : existsb (Nat.eqb s)
                  (WsEndpoint.registry_after
                     (history ++ [WsEndpoint.Connects s])) = true).
    { apply existsb_exists. exists s. split; [ | apply Nat.eqb_refl].
      rewrite registry_after_snoc. apply add_In. left. reflexivity. }
    rewrite E. reflexivity. }
  split; [rewrite registry_after_snoc; cbn; rewrite delete_In; tauto | ].
  split; [rewrite registry_after_snoc; cbn; rewrite delete_In; tauto | ].
  intros s' Hne. rewrite add_In, delete_In. intuition congruence.
Qed.

(** X25: a broadcast sends to registered subscribers only, and to each at
    most once; a subscriber whose close or error handler has run is
    neither sent to nor attempted by the next broadcast. *)
Theorem broadcast_reaches_only_current_subscribers :
  forall (env : Server.Sockets) (history : list WsEndpoint.RegistryEvent)
         (s : Server.Socket) (m : Server.Message),
    let r := WsEndpoint.registry_after history in
    let sent := Server.sent_clients (snd (Server.broadcastToClients env r m))
    in
    let gone := WsEndpoint.registry_after (history ++ [WsEndpoint.Closes s])
    in
    let lost := WsEndpoint.registry_after (history ++ [WsEndpoint.Errors s])
    in
    NoDup sent /\
    (forall c, In c sent -> In c r) /\
    ~ In s (Server.sent_clients
              (snd (Server.broadcastToClients env gone m))) /\
    ~ In s (Server.logged_clients
              (snd (Server.broadcastToClients env gone m))) /\
    ~ In s (Server.sent_clients
              (snd (Server.broadcastToClients env lost m))) /\
    ~ In s (Server.logged_clients
              (snd (Server.broadcastToClients env lost m))).
Proof.
  intros env history s m r sent gone lost. subst r sent gone lost.
  assert (B : forall reg,
            Server.sent_clients (snd (Server.broadcastToClients env reg m))
              = filter (Server.accepts env) reg
            /\ Server.logged_clients
                 (snd (Server.broadcastToClients env reg m))
               = filter (Server.fails env) reg).
  { intros reg. unfold Server.broadcastToClients. cbn [snd].
    destruct (deliver_all env (Server.stringify m) reg) as [_ [S [L _]]].
    unfold Server.sent_clients, Server.logged_clients in *.
    cbn [flat_map app]. split; assumption. }
  assert (G : forall e, e = WsEndpoint.Closes s \/ e = WsEndpoint.Errors s ->
                ~ In s (WsEndpoint.registry_after (history ++ [e]))).
  { intros e [-> | ->]; rewrite registry_after_snoc; cbn;
      rewrite delete_In; tauto. }
  split.
  { rewrite (proj1 (B _)). apply NoDup_filter.
    apply fold_on_event_NoDup. constructor. }
  split.
  { intros c. rewrite (proj1 (B _)), filter_In. tauto. }
  repeat split; rewrite ?(proj1 (B _)), ?(proj2 (B _)), filter_In;
    intros [H _]; revert H; apply G; tauto.
Qed.

(** X26: a socket that connects is registered; it receives the initial
    [connected] message, and then the next broadcast, exactly when it is
    open and its [send] does not throw. *)
Theorem connection_joins_broadcasts :
  forall (env : Server.Sockets) (isRaspberryPi : bool) (s : Server.Socket)
         (r : Server.Registry) (m : Server.Message),
    let joined := WsEndpoint.on_connection env isRaspberryPi s r in
    let hello := WsEndpoint.connected isRaspberryPi in
    In s (fst joined) /\
    (snd joined
       = JS.Normal [Server.Stringified hello;
                    Server.Sent s (Server.stringify hello)]
     <-> Server.accepts env s = true) /\
    (In s (Server.sent_clients
             (snd (Server.broadcastToClients env (fst joined) m)))
     <-> Server.accepts env s = true).
Proof.
  intros env pi s r m joined hello. subst joined hello.
  unfold WsEndpoint.on_connection. cbn [fst snd].
  assert (Hin : In s (Server.add s r)) by (apply add_In; left; reflexivity).
  split; [exact Hin | split].
  - unfold Server.accepts.
    destruct (Server.readyState env s =? 1)%Z;
      destruct (Server.send_throws env s); cbn;
      split; intros H; try reflexivity; discriminate H.
  - unfold Server.broadcastToClients. cbn [snd].
    destruct (deliver_all env (Server.stringify m) (Server.add s r))
      as [_ [S _]].
    unfold Server.sent_clients in *. cbn [flat_map app].
    rewrite S, filter_In. tauto.
Qed.
